(** * Verification of [procrastinate/manager.py]

    A shallow embedding of the job manager of procrastinate: the
    notification-channel mapping, the defer operations with their error
    classification, the claim operation, retention pruning and the
    statistics projections.

    Python values crossing the connector boundary are dynamically typed, so
    they are embedded in one value type [pyval]; dictionaries are finite maps
    with string keys.  The manager's methods talk to a connector and draw
    random UUIDs; both are effects, kept explicit in a small program type
    [prog] whose nodes are the connector calls and UUID draws the code makes,
    in the order it makes them.  [run] executes a program against a connector
    and a supply of UUIDs, threading the store and logging every call. *)

From Stdlib Require Import ZArith.
From stdpp Require Import base option list list_monad strings pretty gmap fin_maps.

Set Warnings "-register-all".
Local Open Scope string_scope.
Local Open Scope list_scope.

(** ** Python values *)

Inductive pyval : Type :=
| PNone
| PBool (b : bool)
| PInt (z : Z)
| PStr (s : string)
| PDatetime (t : Z)
| PObject (address : nat)
| PTuple (vs : list pyval)
| PList (vs : list pyval)
| PDict (d : gmap string pyval).

(** A row handed back by the connector, and the keyword arguments handed to
    it, are both [Dict[str, Any]]: values of type [gmap string pyval]. *)

(** [Optional[...]] attributes seen as Python values. *)
Definition of_opt_str (o : option string) : pyval :=
  match o with Some s => PStr s | None => PNone end.

Definition of_opt_int (o : option Z) : pyval :=
  match o with Some z => PInt z | None => PNone end.

Definition of_opt_datetime (o : option Z) : pyval :=
  match o with Some t => PDatetime t | None => PNone end.

Definition of_opt_queues (o : option (list string)) : pyval :=
  match o with Some qs => PList (PStr <$> qs) | None => PNone end.

(** Truth value of an [Optional[str]]: [None] and the empty string are
    falsy, every other string is truthy. *)
Definition truthy_opt_str (o : option string) : bool :=
  match o with
  | None => false
  | Some s => bool_decide (s ≠ "")
  end.

(** Truth value of an [Optional[bool]]. *)
Definition truthy_opt_bool (o : option bool) : bool :=
  match o with
  | None => false
  | Some b => b
  end.

(** [v is None] *)
Definition is_None (v : pyval) : bool :=
  match v with PNone => true | _ => false end.

(** An [Optional[str]] interpolated in an f-string. *)
Definition format_opt_str (o : option string) : string :=
  match o with Some s => s | None => "None" end.

(** ** Exceptions *)

Inductive exn : Type :=
| UniqueViolation (message : string) (constraint_name : option string)
| AlreadyEnqueued (message : string) (cause : exn)
| ConnectorException (message : string)
| KeyError (key : string)
| AttributeError (name : string)
| UnboundLocalError (name : string).

(** What a call gives back to its caller: a value, or a raised exception. *)
Inductive reply (R : Type) : Type :=
| Returned (r : R)
| Raised (e : exn).
Arguments Returned {R} r.
Arguments Raised {R} e.

(** ** The entities the manager reads *)

(** Modelled from the spec: the job statuses of [jobs.Status] (the module
    [jobs] is not part of the sources); section 3 names the four statuses,
    and the docstrings of the manager spell their values the same way. *)
Inductive Status : Type := TODO | DOING | SUCCEEDED | FAILED.

Definition Status_value (s : Status) : string :=
  match s with
  | TODO => "todo"
  | DOING => "doing"
  | SUCCEEDED => "succeeded"
  | FAILED => "failed"
  end.

Definition Status_of_value (v : string) : option Status :=
  if decide (v = "todo") then Some TODO
  else if decide (v = "doing") then Some DOING
  else if decide (v = "succeeded") then Some SUCCEEDED
  else if decide (v = "failed") then Some FAILED
  else None.

(** Modelled from the spec: the job record of [jobs.Job], with the fields of
    section 3 under the attribute names by which the manager reads them
    ([task_kwargs] holds the payload [args]); [id] is unset until the store
    has assigned one. *)
Module Job.
Record t : Type := make {
  id : option Z;
  queue : string;
  lock : option string;
  queueing_lock : option string;
  task_name : string;
  task_kwargs : gmap string pyval;
  scheduled_at : option Z;
  status : Status;
  attempts : Z;
}.
End Job.

(** The attributes of a periodic task that [defer_periodic_job] reads. *)
Module Task.
Record t : Type := make {
  name : string;
  queue : string;
  lock : option string;
  queueing_lock : option string;
}.
End Task.

(** ** Programs over the connector *)

(** The connector offers three result shapes for a query (nothing, one row,
    all rows) and a subscription to notification channels; a method is one
    of these operations in its blocking or in its suspending ([async])
    form. *)
Inductive operation : Type := Execute | ExecuteOne | ExecuteAll | ListenNotify.
Inductive call_form : Type := Blocking | Suspending.

Record connector_method : Type := Method {
  operation_of : operation;
  form_of : call_form;
}.

Definition execute_query_async : connector_method := Method Execute Suspending.
Definition execute_query_one : connector_method := Method ExecuteOne Blocking.
Definition execute_query_one_async : connector_method := Method ExecuteOne Suspending.
Definition execute_query_all_async : connector_method := Method ExecuteAll Suspending.
Definition listen_notify : connector_method := Method ListenNotify Suspending.

Definition result_of (op : operation) : Type :=
  match op with
  | Execute | ListenNotify => unit
  | ExecuteOne => gmap string pyval
  | ExecuteAll => list (gmap string pyval)
  end.

Inductive prog (A : Type) : Type :=
| Ret (a : A)
| Throw (e : exn)
| Uuid4 (k : string → prog A)
| Call (m : connector_method) (kw : gmap string pyval)
       (k : reply (result_of (operation_of m)) → prog A).
Arguments Ret {A} a.
Arguments Throw {A} e.
Arguments Uuid4 {A} k.
Arguments Call {A} m kw k.

Fixpoint prog_bind {A B} (f : A → prog B) (p : prog A) : prog B :=
  match p with
  | Ret a => f a
  | Throw e => Throw e
  | Uuid4 k => Uuid4 (λ u, prog_bind f (k u))
  | Call m kw k => Call m kw (λ r, prog_bind f (k r))
  end.

#[global] Instance prog_ret : MRet prog := @Ret.
#[global] Instance prog_mbind : MBind prog := @prog_bind.

(** [str(uuid.uuid4())] *)
Definition str_uuid4 : prog string := Uuid4 Ret.

(** A connector call inside a [try]: the reply is handed to the handler. *)
Definition try_call (m : connector_method) (kw : gmap string pyval)
  : prog (reply (result_of (operation_of m))) :=
  Call m kw Ret.

(** A connector call outside any [try]: an exception propagates. *)
Definition await (m : connector_method) (kw : gmap string pyval)
  : prog (result_of (operation_of m)) :=
  Call m kw (λ r, match r with Returned v => Ret v | Raised e => Throw e end).

(** [row[key]] *)
Definition subscript (r : gmap string pyval) (key : string) : prog pyval :=
  match r !! key with
  | Some v => Ret v
  | None => Throw (KeyError key)
  end.

(** [v.get(key, default)]; only dictionaries have a [get]. *)
Definition dict_get (v : pyval) (key : string) (default : pyval) : prog pyval :=
  match v with
  | PDict d => Ret (match d !! key with Some x => x | None => default end)
  | _ => Throw (AttributeError "get")
  end.

(** ** Running a program *)

(** The connector answers a call from the current store and moves the store
    on. *)
Definition connector (St : Type) : Type :=
  ∀ m : connector_method,
    gmap string pyval → St → reply (result_of (operation_of m)) * St.

Record machine (St : Type) : Type := Machine {
  drawn : nat;
  store : St;
  calls : list (connector_method * gmap string pyval);
}.
Arguments Machine {St} drawn store calls.
Arguments drawn {St} m.
Arguments store {St} m.
Arguments calls {St} m.

Fixpoint run {St A} (uuid_source : nat → string) (conn : connector St)
    (p : prog A) (σ : machine St) : reply A * machine St :=
  match p with
  | Ret a => (Returned a, σ)
  | Throw e => (Raised e, σ)
  | Uuid4 k =>
      run uuid_source conn (k (uuid_source (drawn σ)))
        (Machine (S (drawn σ)) (store σ) (calls σ))
  | Call m kw k =>
      let '(r, s) := conn m kw (store σ) in
      run uuid_source conn (k r)
        (Machine (drawn σ) s (calls σ ++ [(m, kw)]))
  end.

(** ** Notification channels *)

(** def get_channel_for_queues(queues=None) *)
Definition get_channel_for_queues (queues : option (list string)) : list string :=
  match queues with
  | None => ["procrastinate_any_queue"]
  | Some queues => (λ queue, "procrastinate_queue#" +:+ queue) <$> queues
  end.

(** ** The job manager *)

Section JobManager.

(** [connector.QUEUEING_LOCK_CONSTRAINT] and [sql.queries] live in modules
    that are not part of the sources; the manager is verified for any
    value of the constant and any text of the named queries. *)
Variable QUEUEING_LOCK_CONSTRAINT : string.
Variable queries : string → string.

(** [jobs.Job.from_row], likewise absent: any function from a row to a job
    that may raise. *)
Variable Job_from_row : gmap string pyval → reply Job.t.

(** def _defer_job_query_kwargs(self, job) *)
Definition _defer_job_query_kwargs (job : Job.t) : prog (gmap string pyval) :=
  lock ← (if truthy_opt_str (Job.lock job)
          then Ret (of_opt_str (Job.lock job))
          else u ← str_uuid4; Ret (PStr u));
  Ret (<["query" := PStr (queries "defer_job")]>
      (<["task_name" := PStr (Job.task_name job)]>
      (<["queue" := PStr (Job.queue job)]>
      (<["lock" := lock]>
      (<["queueing_lock" := of_opt_str (Job.queueing_lock job)]>
      (<["args" := PDict (Job.task_kwargs job)]>
      (<["scheduled_at" := of_opt_datetime (Job.scheduled_at job)]> ∅))))))).

(** def _raise_already_enqueued(self, exc, queueing_lock) *)
Definition _raise_already_enqueued (exc : exn) (queueing_lock : option string)
  : prog unit :=
  match exc with
  | UniqueViolation _ constraint_name =>
      if bool_decide (constraint_name = Some QUEUEING_LOCK_CONSTRAINT)
      then Throw (AlreadyEnqueued
                    ("Job cannot be enqueued: there is already a job in the queue "
                     +:+ "with the queueing lock " +:+ format_opt_str queueing_lock)
                    exc)
      else Throw exc
  | _ => Throw (AttributeError "constraint_name")
  end.

(** async def defer_job_async(self, job) *)
Definition defer_job_async (job : Job.t) : prog pyval :=
  kw ← _defer_job_query_kwargs job;
  r ← try_call execute_query_one_async kw;
  match r with
  | Returned result => subscript result "id"
  | Raised (UniqueViolation _ _ as exc) =>
      _raise_already_enqueued exc (Job.queueing_lock job);;
      Throw (UnboundLocalError "result")
  | Raised e => Throw e
  end.

(** def defer_job(self, job) *)
Definition defer_job (job : Job.t) : prog pyval :=
  kw ← _defer_job_query_kwargs job;
  r ← try_call execute_query_one kw;
  match r with
  | Returned result => subscript result "id"
  | Raised (UniqueViolation _ _ as exc) =>
      _raise_already_enqueued exc (Job.queueing_lock job);;
      Throw (UnboundLocalError "result")
  | Raised e => Throw e
  end.

(** async def defer_periodic_job(self, task, defer_timestamp) *)
Definition defer_periodic_job (task : Task.t) (defer_timestamp : Z) : prog pyval :=
  r ← try_call execute_query_one_async
        (<["query" := PStr (queries "defer_periodic_job")]>
        (<["task_name" := PStr (Task.name task)]>
        (<["queue" := PStr (Task.queue task)]>
        (<["lock" := of_opt_str (Task.lock task)]>
        (<["queueing_lock" := of_opt_str (Task.queueing_lock task)]>
        (<["defer_timestamp" := PInt defer_timestamp]> ∅))))));
  match r with
  | Returned result => subscript result "id"
  | Raised (UniqueViolation _ _ as exc) =>
      _raise_already_enqueued exc (Task.queueing_lock task);;
      Throw (UnboundLocalError "result")
  | Raised e => Throw e
  end.

(** async def fetch_job(self, queues) *)
Definition fetch_job (queues : option (list string)) : prog (option Job.t) :=
  row ← await execute_query_one_async
          (<["query" := PStr (queries "fetch_job")]>
          (<["queues" := of_opt_queues queues]> ∅));
  id ← subscript row "id";
  if is_None id then Ret None
  else match Job_from_row row with
       | Returned job => Ret (Some job)
       | Raised e => Throw e
       end.

(** async def delete_old_jobs(self, nb_hours, queue=None, include_error=False) *)
Definition delete_old_jobs (nb_hours : Z) (queue : option string)
    (include_error : option bool) : prog unit :=
  let statuses :=
    if negb (truthy_opt_bool include_error)
    then [PStr (Status_value SUCCEEDED)]
    else [PStr (Status_value SUCCEEDED); PStr (Status_value FAILED)] in
  await execute_query_async
    (<["query" := PStr (queries "delete_old_jobs")]>
    (<["nb_hours" := PInt nb_hours]>
    (<["queue" := of_opt_str queue]>
    (<["statuses" := PTuple statuses]> ∅)))).

(** The default of the keyword argument [include_error]. *)
Definition include_error_default : option bool := Some false.

(** async def listen_for_jobs(self, *, event, queues=None) *)
Definition listen_for_jobs (event : nat) (queues : option (list string)) : prog unit :=
  await listen_notify
    (<["event" := PObject event]>
    (<["channels" := PList (PStr <$> get_channel_for_queues queues)]> ∅)).

(** The dictionary built for one row by the comprehensions of
    [list_queues_async] and [list_tasks_async]; the two write it out
    identically, entry by entry in this order. *)
Definition stats_projection (row : gmap string pyval) : prog (gmap string pyval) :=
  name ← subscript row "name";
  jobs_count ← subscript row "jobs_count";
  todo ← (stats ← subscript row "stats"; dict_get stats "todo" (PInt 0));
  doing ← (stats ← subscript row "stats"; dict_get stats "doing" (PInt 0));
  succeeded ← (stats ← subscript row "stats"; dict_get stats "succeeded" (PInt 0));
  failed ← (stats ← subscript row "stats"; dict_get stats "failed" (PInt 0));
  Ret (<["name" := name]>
      (<["jobs_count" := jobs_count]>
      (<["todo" := todo]>
      (<["doing" := doing]>
      (<["succeeded" := succeeded]>
      (<["failed" := failed]> ∅)))))).

(** async def list_queues_async(self, queue=None, task=None, status=None, lock=None) *)
Definition list_queues_async (queue task status lock : option string)
  : prog (list (gmap string pyval)) :=
  rows ← await execute_query_all_async
           (<["query" := PStr (queries "list_queues")]>
           (<["queue_name" := of_opt_str queue]>
           (<["task_name" := of_opt_str task]>
           (<["status" := of_opt_str status]>
           (<["lock" := of_opt_str lock]> ∅)))));
  mapM stats_projection rows.

(** async def list_tasks_async(self, queue=None, task=None, status=None, lock=None) *)
Definition list_tasks_async (queue task status lock : option string)
  : prog (list (gmap string pyval)) :=
  rows ← await execute_query_all_async
           (<["query" := PStr (queries "list_tasks")]>
           (<["queue_name" := of_opt_str queue]>
           (<["name" := of_opt_str task]>
           (<["status" := of_opt_str status]>
           (<["lock" := of_opt_str lock]> ∅)))));
  mapM stats_projection rows.

End JobManager.

(** ** The rest of the job manager *)

(** Truth value of an [Optional[int]]: [None] and 0 are falsy. *)
Definition truthy_opt_int (o : option Z) : bool :=
  match o with
  | None => false
  | Some z => bool_decide (z ≠ 0%Z)
  end.

(** A method that opens with an [assert]: it raises [AssertionError] before
    doing anything, or goes on as the program that follows the assertion. *)
Inductive asserting (A : Type) : Type :=
| AssertionError
| Asserted (a : A).
Arguments AssertionError {A}.
Arguments Asserted {A} a.

(** A method that ends by unpacking a list into a one-element tuple: it
    raises [ValueError] unless the list has exactly one element. *)
Inductive unpacking (A : Type) : Type :=
| ValueError
| Unpacked (a : A).
Arguments ValueError {A}.
Arguments Unpacked {A} a.

Section JobManagerRest.

(** As before, [sql.queries] and [jobs.Job.from_row] are parameters. *)
Variable queries : string → string.
Variable Job_from_row : gmap string pyval → reply Job.t.

(** [jobs.Job.from_row(row)], called where an exception propagates. *)
Definition from_row_or_raise (row : gmap string pyval) : prog Job.t :=
  match Job_from_row row with
  | Returned job => Ret job
  | Raised e => Throw e
  end.

(** async def get_stalled_jobs(self, nb_seconds, queue=None, task_name=None) *)
Definition get_stalled_jobs (nb_seconds : Z) (queue task_name : option string)
  : prog (list Job.t) :=
  rows ← await execute_query_all_async
           (<["query" := PStr (queries "select_stalled_jobs")]>
           (<["nb_seconds" := PInt nb_seconds]>
           (<["queue" := of_opt_str queue]>
           (<["task_name" := of_opt_str task_name]> ∅))));
  mapM from_row_or_raise rows.

(** async def finish_job(self, job, status) *)
Definition finish_job (job : Job.t) (status : Status) : asserting (prog unit) :=
  if truthy_opt_int (Job.id job)
  then Asserted
         (await execute_query_async
            (<["query" := PStr (queries "finish_job")]>
            (<["job_id" := of_opt_int (Job.id job)]>
            (<["status" := PStr (Status_value status)]> ∅))))
  else AssertionError.

(** async def retry_job(self, job, retry_at) *)
Definition retry_job (job : Job.t) (retry_at : Z) : prog unit :=
  await execute_query_async
    (<["query" := PStr (queries "retry_job")]>
    (<["job_id" := of_opt_int (Job.id job)]>
    (<["retry_at" := PDatetime retry_at]> ∅))).

(** async def check_connection(self) *)
Definition check_connection : prog bool :=
  result ← await execute_query_one_async
             (<["query" := PStr (queries "check_connection")]> ∅);
  check ← subscript result "check";
  Ret (negb (is_None check)).

(** The dictionary built for one row by the comprehension of
    [list_jobs_async], entry by entry in this order. *)
Definition job_projection (row : gmap string pyval) : prog (gmap string pyval) :=
  id ← subscript row "id";
  queue ← subscript row "queue_name";
  task ← subscript row "task_name";
  lock ← subscript row "lock";
  queueing_lock ← subscript row "queueing_lock";
  args ← subscript row "args";
  status ← subscript row "status";
  scheduled_at ← subscript row "scheduled_at";
  attempts ← subscript row "attempts";
  Ret (<["id" := id]>
      (<["queue" := queue]>
      (<["task" := task]>
      (<["lock" := lock]>
      (<["queueing_lock" := queueing_lock]>
      (<["args" := args]>
      (<["status" := status]>
      (<["scheduled_at" := scheduled_at]>
      (<["attempts" := attempts]> ∅))))))))).

(** async def list_jobs_async(self, id=None, queue=None, task=None,
    status=None, lock=None, queueing_lock=None) *)
Definition list_jobs_async (id : option Z)
    (queue task status lock queueing_lock : option string)
  : prog (list (gmap string pyval)) :=
  rows ← await execute_query_all_async
           (<["query" := PStr (queries "list_jobs")]>
           (<["id" := of_opt_int id]>
           (<["queue_name" := of_opt_str queue]>
           (<["task_name" := of_opt_str task]>
           (<["status" := of_opt_str status]>
           (<["lock" := of_opt_str lock]>
           (<["queueing_lock" := of_opt_str queueing_lock]> ∅)))))));
  mapM job_projection rows.

(** async def set_job_status_async(self, id, status) *)
Definition set_job_status_async (id : Z) (status : string)
  : prog (unpacking (gmap string pyval)) :=
  await execute_query_async
    (<["query" := PStr (queries "set_job_status")]>
    (<["id" := PInt id]>
    (<["status" := PStr status]> ∅)));;
  rows ← list_jobs_async (Some id) None None None None None;
  match rows with
  | [result] => Ret (Unpacked result)
  | _ => Ret ValueError
  end.

End JobManagerRest.

(** ** Vocabulary of the statements *)

(** The defer operation in either call form. *)
Definition defer_in (form : call_form) (QUEUEING_LOCK_CONSTRAINT : string)
    (queries : string → string) : Job.t → prog pyval :=
  match form with
  | Blocking => defer_job QUEUEING_LOCK_CONSTRAINT queries
  | Suspending => defer_job_async QUEUEING_LOCK_CONSTRAINT queries
  end.

(** The two statistics operations. *)
Inductive stats_operation : Type := Queues | Tasks.

Definition list_stats (which : stats_operation) (queries : string → string)
  : option string → option string → option string → option string →
    prog (list (gmap string pyval)) :=
  match which with
  | Queues => list_queues_async queries
  | Tasks => list_tasks_async queries
  end.

(** What a caller of a defer operation sees when the store raises [exc]
    while the job carries [queueing_lock], written after sections 4.2 and 7
    of the specification: a violation of the queueing-lock constraint
    becomes [AlreadyEnqueued] naming the lock, anything else is relayed. *)
Definition classified (QUEUEING_LOCK_CONSTRAINT : string)
    (queueing_lock : option string) (exc : exn) : exn :=
  match exc with
  | UniqueViolation _ (Some c) =>
      if decide (c = QUEUEING_LOCK_CONSTRAINT)
      then AlreadyEnqueued
             ("Job cannot be enqueued: there is already a job in the queue "
              +:+ "with the queueing lock " +:+ format_opt_str queueing_lock)
             exc
      else exc
  | _ => exc
  end.

(** ** Concrete stores and inputs *)

Module Sample.

Definition QUEUEING_LOCK_CONSTRAINT : string := "procrastinate_jobs_queueing_lock_idx".

(** Every named operation stands for its own query text. *)
Definition queries : string → string := λ name, name.

(** A store that fails every call with [exc]. *)
Definition raising (exc : exn) : connector unit := λ m kw s, (Raised exc, s).

(** A store that answers every one-row query with [r], every all-rows
    query with [rs], and leaves the rest without result. *)
Definition answering (r : gmap string pyval) (rs : list (gmap string pyval))
  : connector unit :=
  λ m kw s,
    (match operation_of m as op return reply (result_of op) with
     | Execute | ListenNotify => Returned ()
     | ExecuteOne => Returned r
     | ExecuteAll => Returned rs
     end, s).

(** A store that numbers the rows it creates: a one-row query is answered
    with the next identifier. *)
Definition numbering : connector Z :=
  λ m kw s,
    (match operation_of m as op return reply (result_of op) with
     | Execute | ListenNotify => Returned ()
     | ExecuteOne => Returned {[ "id" := PInt s ]}
     | ExecuteAll => Returned []
     end, (s + 1)%Z).

(** A supply of tokens that never repeats itself. *)
Definition uuid_source (n : nat) : string := "uuid4-" +:+ pretty n.

Definition start {St} (s : St) : machine St := Machine 0 s [].

Definition job (lock queueing_lock : option string) : Job.t :=
  Job.make None "default" lock queueing_lock "send_mail" ∅ None TODO 0.

Definition task (lock queueing_lock : option string) : Task.t :=
  Task.make "cleanup" "default" lock queueing_lock.

(** A unique violation on the queueing-lock constraint, and one on another
    constraint. *)
Definition queueing_lock_violation : exn :=
  UniqueViolation "duplicate key value violates unique constraint"
    (Some QUEUEING_LOCK_CONSTRAINT).

Definition periodic_violation : exn :=
  UniqueViolation "duplicate key value violates unique constraint"
    (Some "procrastinate_periodic_defers_unique").

(** The row of a claim that found nothing, and the row of a claimed job. *)
Definition empty_claim : gmap string pyval :=
  <["id" := PNone]> (<["queue_name" := PNone]> (<["lock" := PNone]>
  (<["queueing_lock" := PNone]> (<["task_name" := PNone]> (<["args" := PNone]>
  (<["scheduled_at" := PNone]> (<["status" := PNone]>
  (<["attempts" := PNone]> ∅)))))))).

Definition claimed : gmap string pyval :=
  <["id" := PInt 7]> (<["queue_name" := PStr "default"]>
  (<["lock" := PStr "mailbox"]> (<["queueing_lock" := PNone]>
  (<["task_name" := PStr "send_mail"]> (<["args" := PDict ∅]>
  (<["scheduled_at" := PNone]> (<["status" := PStr "doing"]>
  (<["attempts" := PInt 1]> ∅)))))))).

(** A queue with three jobs, all of them [todo]. *)
Definition todo_only : gmap string pyval :=
  <["name" := PStr "default"]> (<["jobs_count" := PInt 3]>
  (<["stats" := PDict (<["todo" := PInt 3]> ∅)]> ∅)).

Definition todo_only_projection : gmap string pyval :=
  <["name" := PStr "default"]> (<["jobs_count" := PInt 3]>
  (<["todo" := PInt 3]> (<["doing" := PInt 0]>
  (<["succeeded" := PInt 0]> (<["failed" := PInt 0]> ∅))))).

(** Modelled from the spec: [jobs.Job.from_row], which is not part of the
    sources, building the job record of section 3 field by field from the
    row's columns; a missing or ill-typed column raises. *)
Definition from_row (r : gmap string pyval) : reply Job.t :=
  match r !! "id", r !! "queue_name", r !! "lock", r !! "queueing_lock",
        r !! "task_name", r !! "args", r !! "scheduled_at",
        r !! "status" ≫= (λ v, match v with
                                | PStr v => Status_of_value v
                                | _ => None
                                end),
        r !! "attempts" with
  | Some (PInt id), Some (PStr queue), Some lock, Some queueing_lock,
    Some (PStr task_name), Some (PDict args), Some scheduled_at,
    Some status, Some (PInt attempts) =>
      Returned (Job.make (Some id) queue
                  (match lock with PStr l => Some l | _ => None end)
                  (match queueing_lock with PStr l => Some l | _ => None end)
                  task_name args
                  (match scheduled_at with PDatetime t => Some t | _ => None end)
                  status attempts)
  | _, _, _, _, _, _, _, _, _ => Raised (KeyError "row")
  end.

End Sample.

(** ** Vocabulary of the further statements *)

(** The columns that [list_jobs_async] reads from a row, and the keys under
    which it files them, in the order of the comprehension. *)
Definition job_columns : list string :=
  ["id"; "queue_name"; "task_name"; "lock"; "queueing_lock"; "args"; "status";
   "scheduled_at"; "attempts"].

Definition job_keys : list string :=
  ["id"; "queue"; "task"; "lock"; "queueing_lock"; "args"; "status";
   "scheduled_at"; "attempts"].

(** A row of statistics that [list_queues_async] and [list_tasks_async] can
    project: the two plain columns, and a dictionary of counts. *)
Definition stats_row (row : gmap string pyval) : Prop :=
  is_Some (row !! "name") ∧ is_Some (row !! "jobs_count")
  ∧ ∃ stats, row !! "stats" = Some (PDict stats).

(** A program that draws nothing and calls the connector exactly once, by
    the method [m], whatever the connector answers. *)
Definition single_query {A} (m : connector_method) (p : prog A) : Prop :=
  ∀ (St : Type) (us : nat → string) (conn : connector St) (σ : machine St),
  ∃ kw,
    calls (run us conn p σ).2 = calls σ ++ [(m, kw)]
    ∧ drawn (run us conn p σ).2 = drawn σ
    ∧ store (run us conn p σ).2 = (conn m kw (store σ)).2.

(** * Properties *)

(** ** Running programs *)

Section Run.
Context {St : Type} (uuid_source : nat → string) (conn : connector St).

Lemma run_bind {A B} (p : prog A) (f : A → prog B) (σ : machine St) :
  run uuid_source conn (p ≫= f) σ
  = match run uuid_source conn p σ with
    | (Returned a, σ') => run uuid_source conn (f a) σ'
    | (Raised e, σ') => (Raised e, σ')
    end.
Proof.
  revert σ. induction p as [a|e|k IH|m kw k IH]; intros σ; simpl.
  - done.
  - done.
  - apply IH.
  - destruct (conn m kw (store σ)) as [r s]. apply IH.
Qed.

(** Draws from the UUID supply are never given back. *)
Lemma run_drawn_mono {A} (p : prog A) (σ : machine St) :
  (drawn σ ≤ drawn (run uuid_source conn p σ).2)%nat.
Proof.
  revert σ. induction p as [a|e|k IH|m kw k IH]; intros σ; simpl.
  - done.
  - done.
  - etrans; [|apply IH]. simpl. lia.
  - destruct (conn m kw (store σ)) as [r s].
    apply (IH r (Machine _ _ _)).
Qed.

(** The log of calls only grows. *)
Lemma run_calls_prefix {A} (p : prog A) (σ : machine St) :
  calls σ `prefix_of` calls (run uuid_source conn p σ).2.
Proof.
  revert σ. induction p as [a|e|k IH|m kw k IH]; intros σ; simpl.
  - done.
  - done.
  - apply (IH _ (Machine _ _ _)).
  - destruct (conn m kw (store σ)) as [r s].
    etrans; [|apply (IH r)]. simpl. by apply prefix_app_r.
Qed.
End Run.

(** ** Notification channels *)

Example get_channel_for_queues_two :
  get_channel_for_queues (Some ["a"; "mail"])
  = ["procrastinate_queue#a"; "procrastinate_queue#mail"].
Proof. reflexivity. Qed.

(** A queue channel is never the wildcard channel. *)
Lemma queue_channel_not_wildcard (queue : string) :
  "procrastinate_queue#" +:+ queue ≠ "procrastinate_any_queue".
Proof. discriminate. Qed.

(** C4: without a filter the mapping gives exactly the one wildcard channel;
    with a collection of queue names it gives, in order, exactly one channel
    per name, each the fixed prefix followed by the name; being a function,
    it gives the same channel for the same name at every call. *)
Theorem get_channel_for_queues_spec :
  get_channel_for_queues None = ["procrastinate_any_queue"]
  ∧ (∀ queues : list string,
      length (get_channel_for_queues (Some queues)) = length queues
      ∧ Forall2 (λ queue channel, channel = "procrastinate_queue#" +:+ queue)
          queues (get_channel_for_queues (Some queues)))
  ∧ (∀ queue : string,
      get_channel_for_queues (Some [queue]) = ["procrastinate_queue#" +:+ queue]).
Proof.
  split; [done|]. split; [|done].
  intros queues. unfold get_channel_for_queues. split.
  - apply length_fmap.
  - apply Forall2_fmap_r, Forall_Forall2_diag, Forall_forall. done.
Qed.

(** [listen_for_jobs] subscribes to exactly the channels of the mapping. *)
Lemma listen_for_jobs_channels {St} us (conn : connector St) event queues σ :
  ∃ kw, calls (run us conn (listen_for_jobs event queues) σ).2
        = calls σ ++ [(listen_notify, kw)]
        ∧ kw !! "channels" = Some (PList (PStr <$> get_channel_for_queues queues)).
Proof.
  eexists. unfold listen_for_jobs, await. simpl.
  destruct (conn _ _ _) as [[r|e] s]; simpl; split; done.
Qed.

(** ** The defer operations *)

Section Defer.
Context {St : Type} (Q : string) (queries : string → string).
Context (us : nat → string) (conn : connector St).

(** Building the keyword arguments never fails, never touches the store,
    and draws from the UUID supply exactly when the job's lock is falsy. *)
Lemma run_defer_job_query_kwargs (job : Job.t) (σ : machine St) :
  ∃ kw,
    run us conn (_defer_job_query_kwargs queries job) σ
    = (Returned kw,
       Machine (if truthy_opt_str (Job.lock job) then drawn σ else S (drawn σ))
               (store σ) (calls σ))
    ∧ kw !! "lock"
      = Some (if truthy_opt_str (Job.lock job)
              then of_opt_str (Job.lock job) else PStr (us (drawn σ)))
    ∧ kw !! "query" = Some (PStr (queries "defer_job"))
    ∧ kw !! "task_name" = Some (PStr (Job.task_name job))
    ∧ kw !! "queue" = Some (PStr (Job.queue job))
    ∧ kw !! "queueing_lock" = Some (of_opt_str (Job.queueing_lock job))
    ∧ kw !! "args" = Some (PDict (Job.task_kwargs job))
    ∧ kw !! "scheduled_at" = Some (of_opt_datetime (Job.scheduled_at job)).
Proof.
  unfold _defer_job_query_kwargs. destruct σ as [n s log].
  destruct (truthy_opt_str (Job.lock job)); simpl;
    eexists; (split; [reflexivity|]); repeat split; reflexivity.
Qed.

(** The code's test on the constraint name agrees with [classified]. *)
(** The code's test on the constraint name agrees with [classified]. *)
Lemma run_raise_already_enqueued (msg : string) (c : option string)
    (queueing_lock : option string) (σ : machine St) :
  run us conn (_raise_already_enqueued Q (UniqueViolation msg c) queueing_lock) σ
  = (Raised (classified Q queueing_lock (UniqueViolation msg c)), σ).
Proof.
  unfold _raise_already_enqueued, classified.
  destruct c as [c|]; [|by rewrite bool_decide_eq_false_2].
  destruct (decide (c = Q)) as [->|Hne].
  - by rewrite bool_decide_eq_true_2.
  - rewrite bool_decide_eq_false_2; [done|congruence].
Qed.

(** One run of a defer operation, in either form: the keyword arguments
    are built, the one-row query is issued once, and its reply decides. *)
Lemma run_defer_in (form : call_form) (job : Job.t) (σ σ1 : machine St)
    (kw : gmap string pyval) :
  run us conn (_defer_job_query_kwargs queries job) σ = (Returned kw, σ1) →
  run us conn (defer_in form Q queries job) σ
  = (let '(r, s) := conn (Method ExecuteOne form) kw (store σ1) in
     (match r with
      | Returned result =>
          match result !! "id" with
          | Some v => Returned v
          | None => Raised (KeyError "id")
          end
      | Raised exc => Raised (classified Q (Job.queueing_lock job) exc)
      end,
      Machine (drawn σ1) s (calls σ1 ++ [(Method ExecuteOne form, kw)]))).
Proof.
  intros Hkw.
  destruct form; unfold defer_in, defer_job, defer_job_async;
    rewrite run_bind, Hkw; simpl;
    (destruct (conn _ kw (store σ1)) as [[result|exc] s]; simpl;
     [ unfold subscript; cbv [result_of operation_of execute_query_one execute_query_one_async] in *; destruct (result !! "id"); reflexivity
     | destruct exc; try reflexivity;
       rewrite run_bind, run_raise_already_enqueued; reflexivity ]).
Qed.

(** One run of the periodic defer operation. *)
Lemma run_defer_periodic_job (task : Task.t) (defer_timestamp : Z)
    (σ : machine St) :
  ∃ kw,
    run us conn (defer_periodic_job Q queries task defer_timestamp) σ
    = (let '(r, s) := conn execute_query_one_async kw (store σ) in
       (match r with
        | Returned result =>
            match result !! "id" with
            | Some v => Returned v
            | None => Raised (KeyError "id")
            end
        | Raised exc => Raised (classified Q (Task.queueing_lock task) exc)
        end,
        Machine (drawn σ) s (calls σ ++ [(execute_query_one_async, kw)])))
    ∧ kw !! "lock" = Some (of_opt_str (Task.lock task))
    ∧ kw !! "query" = Some (PStr (queries "defer_periodic_job"))
    ∧ kw !! "task_name" = Some (PStr (Task.name task))
    ∧ kw !! "queue" = Some (PStr (Task.queue task))
    ∧ kw !! "queueing_lock" = Some (of_opt_str (Task.queueing_lock task))
    ∧ kw !! "defer_timestamp" = Some (PInt defer_timestamp).
Proof.
  unfold defer_periodic_job. simpl.
  match goal with |- context [conn _ ?k (store σ)] => exists k end.
  split; [|repeat split; reflexivity].
  destruct (conn _ _ (store σ)) as [[result|exc] s]; simpl.
  - unfold subscript.
    cbv [result_of operation_of execute_query_one_async] in *.
    destruct (result !! "id"); reflexivity.
  - destruct exc; try reflexivity.
    rewrite run_bind, run_raise_already_enqueued. reflexivity.
Qed.

End Defer.

(** C2: when the store raises while a job is deferred, in either call form,
    the caller sees [AlreadyEnqueued] if and only if the store raised a
    unique violation on the queueing-lock constraint, and then the message
    names the job's queueing lock; every other unique violation and every
    other exception of the store reaches the caller as the store raised
    it. *)
Theorem defer_classifies_store_errors {St} (form : call_form) (Q : string)
    (queries : string → string) (us : nat → string) (conn : connector St)
    (job : Job.t) (σ σ1 : machine St) (kw : gmap string pyval) (exc : exn) (s : St) :
  run us conn (_defer_job_query_kwargs queries job) σ = (Returned kw, σ1) →
  conn (Method ExecuteOne form) kw (store σ1) = (Raised exc, s) →
  let outcome := (run us conn (defer_in form Q queries job) σ).1 in
  (∀ msg c, exc = UniqueViolation msg c →
     ((∃ message cause, outcome = Raised (AlreadyEnqueued message cause))
      ↔ c = Some Q)
     ∧ (c = Some Q →
        outcome = Raised (AlreadyEnqueued
          ("Job cannot be enqueued: there is already a job in the queue with the queueing lock "
           +:+ format_opt_str (Job.queueing_lock job)) exc))
     ∧ (c ≠ Some Q → outcome = Raised exc))
  ∧ ((∀ msg c, exc ≠ UniqueViolation msg c) → outcome = Raised exc).
Proof.
  intros Hkw Hconn outcome.
  assert (outcome = Raised (classified Q (Job.queueing_lock job) exc)) as ->.
  { unfold outcome. rewrite (run_defer_in _ _ _ _ _ _ _ _ _ Hkw), Hconn. done. }
  split.
  - intros msg c ->. unfold classified.
    destruct c as [c|]; [destruct (decide (c = Q)) as [->|Hne]|].
    + split; [|done]. split; [done|]. eauto.
    + split; [|split; [congruence|done]].
      split; [|congruence]. by intros (? & ? & ?).
    + split; [|done]. split; [|done]. by intros (? & ? & ?).
  - intros Hother. destruct exc as [msg c| | | | |]; try done.
    by destruct (Hother msg c).
Qed.

(** C3: on a connector whose blocking and suspending one-row queries answer
    alike, [defer_job] and [defer_job_async] give the caller the same
    outcome, leave the same store, draw the same tokens, and hand the
    connector the same keyword arguments, those of
    [_defer_job_query_kwargs]; only the form of the method called
    differs. *)
Theorem defer_job_sync_async_agree {St} (Q : string) (queries : string → string)
    (us : nat → string) (conn : connector St) (job : Job.t) (σ : machine St) :
  (∀ kw s, conn execute_query_one kw s = conn execute_query_one_async kw s) →
  let sync := run us conn (defer_job Q queries job) σ in
  let async := run us conn (defer_job_async Q queries job) σ in
  sync.1 = async.1
  ∧ store sync.2 = store async.2
  ∧ drawn sync.2 = drawn async.2
  ∧ ∃ kw σ1,
      run us conn (_defer_job_query_kwargs queries job) σ = (Returned kw, σ1)
      ∧ calls sync.2 = calls σ ++ [(execute_query_one, kw)]
      ∧ calls async.2 = calls σ ++ [(execute_query_one_async, kw)].
Proof.
  intros Hconn sync async.
  destruct (run_defer_job_query_kwargs queries us conn job σ) as (kw & Hkw & _).
  pose proof (run_defer_in Q queries us conn Blocking job _ _ _ Hkw) as Hs.
  pose proof (run_defer_in Q queries us conn Suspending job _ _ _ Hkw) as Ha.
  unfold defer_in in Hs, Ha. subst sync async. rewrite Hs, Ha.
  change (Method ExecuteOne Blocking) with execute_query_one.
  change (Method ExecuteOne Suspending) with execute_query_one_async.
  simpl. rewrite Hconn.
  destruct (conn execute_query_one_async kw (store σ)) as [r s]. simpl.
  repeat split; try done. by eexists _, _.
Qed.

(** ** The periodic defer operation *)

(** C1, as amended: [defer_periodic_job] issues one one-row query and
    returns the [id] of the row the store answers with, be it an identifier
    or [None]; a unique violation raised by the store is never turned into
    [None]: it reaches the caller as [AlreadyEnqueued] when it is on the
    queueing-lock constraint, and unchanged otherwise. *)
Theorem defer_periodic_job_outcome {St} (Q : string) (queries : string → string)
    (us : nat → string) (conn : connector St) (task : Task.t)
    (defer_timestamp : Z) (σ : machine St) :
  let result := run us conn (defer_periodic_job Q queries task defer_timestamp) σ in
  ∃ kw,
    calls result.2 = calls σ ++ [(execute_query_one_async, kw)]
    ∧ ∀ r s, conn execute_query_one_async kw (store σ) = (r, s) →
        (∀ row v, r = Returned row → row !! "id" = Some v →
           result.1 = Returned v)
        ∧ (∀ msg c, r = Raised (UniqueViolation msg c) →
             result.1 ≠ Returned PNone
             ∧ (c = Some Q →
                result.1 = Raised (AlreadyEnqueued
                  ("Job cannot be enqueued: there is already a job in the queue with the queueing lock "
                   +:+ format_opt_str (Task.queueing_lock task))
                  (UniqueViolation msg c)))
             ∧ (c ≠ Some Q → result.1 = Raised (UniqueViolation msg c))).
Proof.
  intros result.
  destruct (run_defer_periodic_job Q queries us conn task defer_timestamp σ)
    as (kw & Hrun & _).
  exists kw. subst result. rewrite Hrun. clear Hrun.
  destruct (conn execute_query_one_async kw (store σ)) as [r s] eqn:Hconn.
  simpl. split; [done|].
  intros r' s' [= <- <-]. split.
  - intros row v -> Hid. simpl in *. by rewrite Hid.
  - intros msg c ->. unfold classified.
    destruct c as [c|]; [destruct (decide (c = Q)) as [->|Hne]|];
      (split; [done|]); split; intros; first [reflexivity | congruence].
Qed.

(** C9: [defer_periodic_job] draws no token and hands the task's lock to
    the store as it is, so a task without lock is persisted with a null
    lock; a job without lock deferred by [defer_job] or [defer_job_async]
    from the same state is persisted with a drawn token instead. *)
Theorem defer_periodic_job_keeps_lock {St} (Q : string) (queries : string → string)
    (us : nat → string) (conn : connector St) (task : Task.t)
    (defer_timestamp : Z) (σ : machine St) :
  let after := (run us conn (defer_periodic_job Q queries task defer_timestamp) σ).2 in
  drawn after = drawn σ
  ∧ (∃ kw, calls after = calls σ ++ [(execute_query_one_async, kw)]
        ∧ kw !! "lock" = Some (of_opt_str (Task.lock task))
        ∧ (Task.lock task = None → kw !! "lock" = Some PNone))
  ∧ (∀ form job, Job.lock job = None →
       ∃ kw, calls (run us conn (defer_in form Q queries job) σ).2
             = calls σ ++ [(Method ExecuteOne form, kw)]
           ∧ kw !! "lock" = Some (PStr (us (drawn σ)))).
Proof.
  intros after.
  destruct (run_defer_periodic_job Q queries us conn task defer_timestamp σ)
    as (kw & Hrun & Hlock & _).
  subst after. rewrite Hrun. clear Hrun.
  destruct (conn execute_query_one_async kw (store σ)) as [r s]. simpl.
  split; [done|]. split.
  - exists kw. split; [done|]. split; [done|]. intros Hnone.
    by rewrite Hlock, Hnone.
  - intros form job Hnone.
    destruct (run_defer_job_query_kwargs queries us conn job σ)
      as (kw' & Hkw & Hlock' & _).
    rewrite Hnone in Hkw, Hlock'. simpl in Hkw, Hlock'.
    exists kw'. rewrite (run_defer_in Q queries us conn form job _ _ _ Hkw).
    simpl. by destruct (conn _ kw' (store σ)).
Qed.

(** ** The lock persisted by the defer operations *)

Section Lock.
Context {St : Type} (Q : string) (queries : string → string).
Context (us : nat → string) (conn : connector St).

(** A falsy lock is replaced by the next token of the supply. *)
Lemma defer_in_falsy_lock (form : call_form) (job : Job.t) (σ : machine St) :
  truthy_opt_str (Job.lock job) = false →
  let after := (run us conn (defer_in form Q queries job) σ).2 in
  ∃ kw, calls after = calls σ ++ [(Method ExecuteOne form, kw)]
      ∧ kw !! "lock" = Some (PStr (us (drawn σ)))
      ∧ drawn after = S (drawn σ).
Proof.
  intros Hfalsy after.
  destruct (run_defer_job_query_kwargs queries us conn job σ)
    as (kw & Hkw & Hlock & _).
  rewrite Hfalsy in Hkw, Hlock.
  exists kw. subst after.
  rewrite (run_defer_in Q queries us conn form job _ _ _ Hkw). simpl.
  by destruct (conn _ kw (store σ)).
Qed.

(** A truthy lock is kept, and nothing is drawn. *)
Lemma defer_in_truthy_lock (form : call_form) (job : Job.t) (σ : machine St) :
  truthy_opt_str (Job.lock job) = true →
  let after := (run us conn (defer_in form Q queries job) σ).2 in
  ∃ kw, calls after = calls σ ++ [(Method ExecuteOne form, kw)]
      ∧ kw !! "lock" = Some (of_opt_str (Job.lock job))
      ∧ drawn after = drawn σ.
Proof.
  intros Htruthy after.
  destruct (run_defer_job_query_kwargs queries us conn job σ)
    as (kw & Hkw & Hlock & _).
  rewrite Htruthy in Hkw, Hlock.
  exists kw. subst after.
  rewrite (run_defer_in Q queries us conn form job _ _ _ Hkw). simpl.
  by destruct (conn _ kw (store σ)).
Qed.

(** Whatever runs after a job with a falsy lock was deferred draws other
    tokens than that job's, as long as the supply does not repeat
    itself. *)
Lemma defer_in_token_fresh {B} (form : call_form) (job : Job.t)
    (between : prog B) (σ : machine St) :
  Inj (=) (=) us →
  truthy_opt_str (Job.lock job) = false →
  let after := (run us conn (defer_in form Q queries job) σ).2 in
  let later := (run us conn between after).2 in
  us (drawn later) ≠ us (drawn σ).
Proof.
  intros Hinj Hfalsy after later Heq%Hinj.
  destruct (defer_in_falsy_lock form job σ Hfalsy) as (kw & _ & _ & Hdrawn).
  pose proof (run_drawn_mono us conn between after) as Hmono.
  fold later in Hmono. fold after in Hdrawn. lia.
Qed.
End Lock.

(** C5, as amended: a job whose lock is unset is deferred, in either call
    form, with the next token of the UUID supply as its lock parameter, which
    is not null and differs from the token of every job without lock
    deferred later, as long as the supply does not repeat itself; a
    non-empty lock is passed to the store unchanged, and nothing is
    drawn. *)
Theorem defer_lock_parameter {St} (form : call_form) (Q : string)
    (queries : string → string) (us : nat → string) (conn : connector St)
    (job : Job.t) (σ : machine St) :
  let after := (run us conn (defer_in form Q queries job) σ).2 in
  ∃ kw,
    calls after = calls σ ++ [(Method ExecuteOne form, kw)]
    ∧ (Job.lock job = None →
         kw !! "lock" = Some (PStr (us (drawn σ)))
         ∧ kw !! "lock" ≠ Some PNone
         ∧ ∀ B (between : prog B) form' job',
             Inj (=) (=) us → Job.lock job' = None →
             let later := (run us conn between after).2 in
             ∃ kw',
               calls (run us conn (defer_in form' Q queries job') later).2
               = calls later ++ [(Method ExecuteOne form', kw')]
               ∧ kw' !! "lock" = Some (PStr (us (drawn later)))
               ∧ kw' !! "lock" ≠ kw !! "lock")
    ∧ (∀ l, Job.lock job = Some l → l ≠ "" →
         kw !! "lock" = Some (PStr l) ∧ drawn after = drawn σ).
Proof.
  intros after.
  destruct (truthy_opt_str (Job.lock job)) eqn:Htruthy.
  - destruct (defer_in_truthy_lock Q queries us conn form job σ Htruthy)
      as (kw & Hcalls & Hlock & Hdrawn).
    exists kw. split; [done|]. split.
    + intros Hnone. by rewrite Hnone in Htruthy.
    + intros l Hl _. by rewrite Hlock, Hl.
  - destruct (defer_in_falsy_lock Q queries us conn form job σ Htruthy)
      as (kw & Hcalls & Hlock & Hdrawn).
    exists kw. split; [done|]. split.
    + intros Hnone. split; [done|]. split; [by rewrite Hlock|].
      intros B between form' job' Hinj Hnone' later.
      assert (truthy_opt_str (Job.lock job') = false) as Hfalsy'
        by (by rewrite Hnone').
      pose proof (defer_in_token_fresh Q queries us conn form job between σ
                    Hinj Htruthy) as Hfresh.
      destruct (defer_in_falsy_lock Q queries us conn form' job' later Hfalsy')
        as (kw' & Hcalls' & Hlock' & _).
      exists kw'. split; [done|]. split; [done|].
      rewrite Hlock, Hlock'. intros [= Heq]. by apply Hfresh.
    + intros l Hl Hne. rewrite Hl in Htruthy. simpl in Htruthy.
      by apply bool_decide_eq_false_1 in Htruthy.
Qed.

(** C10: the fallback is taken for the empty string as for an absent lock:
    a job deferred with lock [""], in either call form, is persisted with
    the next token of the UUID supply, and two jobs deferred with lock [""]
    are persisted with different locks as long as the supply does not repeat
    itself, whatever happens between the two. *)
Theorem defer_empty_lock_falls_back {St} (form : call_form) (Q : string)
    (queries : string → string) (us : nat → string) (conn : connector St)
    (job : Job.t) (σ : machine St) :
  Job.lock job = Some "" →
  let after := (run us conn (defer_in form Q queries job) σ).2 in
  ∃ kw,
    calls after = calls σ ++ [(Method ExecuteOne form, kw)]
    ∧ kw !! "lock" = Some (PStr (us (drawn σ)))
    ∧ drawn after = S (drawn σ)
    ∧ ∀ B (between : prog B) form' job',
        Inj (=) (=) us → Job.lock job' = Some "" →
        let later := (run us conn between after).2 in
        ∃ kw',
          calls (run us conn (defer_in form' Q queries job') later).2
          = calls later ++ [(Method ExecuteOne form', kw')]
          ∧ kw' !! "lock" = Some (PStr (us (drawn later)))
          ∧ kw' !! "lock" ≠ kw !! "lock".
Proof.
  intros Hempty after.
  assert (truthy_opt_str (Job.lock job) = false) as Hfalsy by (by rewrite Hempty).
  destruct (defer_in_falsy_lock Q queries us conn form job σ Hfalsy)
    as (kw & Hcalls & Hlock & Hdrawn).
  exists kw. do 3 (split; [done|]).
  intros B between form' job' Hinj Hempty' later.
  assert (truthy_opt_str (Job.lock job') = false) as Hfalsy'
    by (by rewrite Hempty').
  pose proof (defer_in_token_fresh Q queries us conn form job between σ
                Hinj Hfalsy) as Hfresh.
  destruct (defer_in_falsy_lock Q queries us conn form' job' later Hfalsy')
    as (kw' & Hcalls' & Hlock' & _).
  exists kw'. split; [done|]. split; [done|].
  rewrite Hlock, Hlock'. intros [= Heq]. by apply Hfresh.
Qed.

(** ** Retention pruning *)

(** C6: [delete_old_jobs] issues one query, whose [statuses] are exactly
    [succeeded] when [include_error] is false, which is its default, or
    absent, and exactly [succeeded] and [failed] when it is true; [todo]
    and [doing] are never among them. *)
Theorem delete_old_jobs_statuses {St} (queries : string → string)
    (us : nat → string) (conn : connector St) (nb_hours : Z)
    (queue : option string) (σ : machine St) :
  let passed (include_error : option bool) (statuses : list pyval) : Prop :=
    (∃ kw,
      calls (run us conn (delete_old_jobs queries nb_hours queue include_error) σ).2
      = calls σ ++ [(execute_query_async, kw)]
      ∧ kw !! "statuses" = Some (PTuple statuses)) in
  include_error_default = Some false
  ∧ passed (Some false) [PStr (Status_value SUCCEEDED)]
  ∧ passed None [PStr (Status_value SUCCEEDED)]
  ∧ passed (Some true) [PStr (Status_value SUCCEEDED); PStr (Status_value FAILED)]
  ∧ ∀ include_error, ∃ statuses,
      passed include_error statuses
      ∧ (PStr (Status_value TODO) ∉ statuses)
      ∧ (PStr (Status_value DOING) ∉ statuses).
Proof.
  intros passed.
  assert (∀ include_error, passed include_error
            (if truthy_opt_bool include_error
             then [PStr (Status_value SUCCEEDED); PStr (Status_value FAILED)]
             else [PStr (Status_value SUCCEEDED)])) as Hpassed.
  { intros include_error. unfold passed, delete_old_jobs, await. simpl.
    match goal with |- context [conn _ ?k (store σ)] => exists k end.
    split; [by destruct (conn _ _ (store σ)) as [[r|e] s]|].
    by destruct (truthy_opt_bool include_error). }
  split; [done|]. split; [apply (Hpassed (Some false))|].
  split; [apply (Hpassed None)|]. split; [apply (Hpassed (Some true))|].
  intros include_error. eexists. split; [apply Hpassed|].
  destruct (truthy_opt_bool include_error); simpl; split; intros Hin;
    repeat (apply elem_of_cons in Hin as [Hin|Hin]; [discriminate|]);
    by apply elem_of_nil in Hin.
Qed.

(** ** Claiming a job *)

(** C8: when the store answers the claim with a row, [fetch_job] returns
    [None], and raises nothing, if the row's [id] is null; otherwise it
    returns the job that [Job.from_row] builds from that whole row. *)
Theorem fetch_job_none_or_job {St} (queries : string → string)
    (from_row : gmap string pyval → reply Job.t) (us : nat → string)
    (conn : connector St) (queues : option (list string)) (σ : machine St)
    (row : gmap string pyval) (s : St) :
  conn execute_query_one_async
    (<["query" := PStr (queries "fetch_job")]>
       (<["queues" := of_opt_queues queues]> ∅)) (store σ)
  = (Returned row, s) →
  let outcome := (run us conn (fetch_job queries from_row queues) σ).1 in
  (row !! "id" = Some PNone → outcome = Returned None)
  ∧ (∀ v, row !! "id" = Some v → v ≠ PNone →
       outcome = match from_row row with
                 | Returned job => Returned (Some job)
                 | Raised e => Raised e
                 end).
Proof.
  intros Hconn outcome. subst outcome.
  unfold fetch_job, await. simpl. rewrite Hconn. simpl.
  cbv [result_of operation_of execute_query_one_async] in *.
  unfold subscript. split.
  - intros ->. done.
  - intros v -> Hv. simpl.
    destruct v; try done; simpl; by destruct (from_row row).
Qed.

(** ** Statistics projections *)

Section Stats.
Context {St : Type} (us : nat → string) (conn : connector St).

(** One row of statistics with its three columns gives its projection,
    and the machine is left as it was. *)
Lemma run_stats_projection (row stats : gmap string pyval)
    (name jobs_count : pyval) (σ : machine St) :
  row !! "name" = Some name →
  row !! "jobs_count" = Some jobs_count →
  row !! "stats" = Some (PDict stats) →
  run us conn (stats_projection row) σ
  = (Returned (<["name" := name]>
              (<["jobs_count" := jobs_count]>
              (<["todo" := default (PInt 0) (stats !! "todo")]>
              (<["doing" := default (PInt 0) (stats !! "doing")]>
              (<["succeeded" := default (PInt 0) (stats !! "succeeded")]>
              (<["failed" := default (PInt 0) (stats !! "failed")]> ∅)))))),
     σ).
Proof.
  intros Hname Hcount Hstats.
  unfold stats_projection, subscript. rewrite Hname, Hcount, Hstats. done.
Qed.

(** Building a projection neither draws a token nor calls the
    connector. *)
Lemma run_stats_projection_pure (row : gmap string pyval) (σ : machine St) :
  (run us conn (stats_projection row) σ).2 = σ.
Proof.
  unfold stats_projection, subscript.
  destruct (row !! "name"); [|done].
  destruct (row !! "jobs_count"); [|done].
  destruct (row !! "stats") as [[]|]; done.
Qed.

(** A projection that is produced comes from a row whose [stats] is a
    dictionary, and carries every status with its count, or with 0 where
    the dictionary has none. *)
Lemma run_stats_projection_returned (row projection : gmap string pyval)
    (σ : machine St) :
  (run us conn (stats_projection row) σ).1 = Returned projection →
  ∃ stats,
    row !! "stats" = Some (PDict stats)
    ∧ ∀ status : Status,
        projection !! Status_value status
        = Some (default (PInt 0) (stats !! Status_value status)).
Proof.
  unfold stats_projection, subscript.
  destruct (row !! "name"); [|done].
  destruct (row !! "jobs_count"); [|done].
  destruct (row !! "stats") as [[| | | | | | | |stats]|]; try done.
  simpl. intros [= <-]. exists stats. split; [done|].
  intros []; reflexivity.
Qed.

Lemma run_mapM_stats_projection (rows : list (gmap string pyval))
    (σ : machine St) :
  (run us conn (mapM stats_projection rows) σ).2 = σ
  ∧ ∀ out, (run us conn (mapM stats_projection rows) σ).1 = Returned out →
      Forall2 (λ row projection,
                 (run us conn (stats_projection row) σ).1 = Returned projection)
              rows out.
Proof.
  induction rows as [|row rows [IHpure IH]]; simpl.
  - split; [done|]. intros out [= <-]. constructor.
  - rewrite run_bind.
    pose proof (run_stats_projection_pure row σ) as Hpure.
    destruct (run us conn (stats_projection row) σ) as [[projection|e] σ']
      eqn:Hrow; simpl in Hpure; subst σ'; [|by split; [|intros out [=]]].
    rewrite run_bind.
    destruct (run us conn (mapM stats_projection rows) σ) as [[rest|e] σ'];
      simpl in IHpure; subst σ'; [|by split; [|intros out [=]]].
    simpl. split; [done|]. intros out [= <-].
    constructor; [by rewrite Hrow|by apply IH].
Qed.

(** Rows that carry their three columns all get their projection. *)
Lemma run_mapM_stats_projection_total (rows : list (gmap string pyval))
    (σ : machine St) :
  Forall (λ row : gmap string pyval,
            is_Some (row !! "name") ∧ is_Some (row !! "jobs_count")
            ∧ ∃ stats, row !! "stats" = Some (PDict stats)) rows →
  ∃ out, run us conn (mapM stats_projection rows) σ = (Returned out, σ)
       ∧ length out = length rows.
Proof.
  induction 1 as [|row rows ([name Hname] & [count Hcount] & stats & Hstats) _ IH];
    simpl.
  - by exists [].
  - destruct IH as (out & Hout & Hlen).
    rewrite run_bind,
      (run_stats_projection row stats name count σ Hname Hcount Hstats).
    rewrite run_bind, Hout. simpl. eexists. split; [done|]. simpl. by rewrite Hlen.
Qed.
End Stats.

(** The statistics operations return, with one projection per row, as soon
    as the store answers with rows that carry their three columns. *)
Lemma list_stats_returns {St} (which : stats_operation)
    (queries : string → string) (us : nat → string) (conn : connector St)
    (queue task status lock : option string) (σ : machine St)
    (rows : list (gmap string pyval)) :
  (∀ kw, (conn execute_query_all_async kw (store σ)).1 = Returned rows) →
  Forall (λ row : gmap string pyval,
            is_Some (row !! "name") ∧ is_Some (row !! "jobs_count")
            ∧ ∃ stats, row !! "stats" = Some (PDict stats)) rows →
  ∃ out,
    (run us conn (list_stats which queries queue task status lock) σ).1
    = Returned out
    ∧ length out = length rows.
Proof.
  intros Hconn Hrows.
  destruct which; unfold list_stats, list_queues_async, list_tasks_async, await;
    simpl;
    match goal with |- context [conn _ ?k (store σ)] =>
      specialize (Hconn k); destruct (conn _ k (store σ)) as [r s] end;
    simpl in Hconn; subst r; simpl;
    match goal with |- context [run us conn (mapM stats_projection rows) ?m] =>
      destruct (run_mapM_stats_projection_total us conn rows m Hrows)
        as (out & -> & Hlen) end;
    by exists out.
Qed.

(** C7: every projection that [list_queues_async] and [list_tasks_async]
    produce, one per row of the aggregation and in its order, has the four
    keys [todo], [doing], [succeeded] and [failed], each with the count of
    the row's [stats], or with 0 where [stats] has no such bucket. *)
Theorem list_stats_zero_filled {St} (which : stats_operation)
    (queries : string → string) (us : nat → string) (conn : connector St)
    (queue task status lock : option string) (σ : machine St)
    (out : list (gmap string pyval)) :
  (run us conn (list_stats which queries queue task status lock) σ).1
  = Returned out →
  ∃ kw rows s,
    calls (run us conn (list_stats which queries queue task status lock) σ).2
    = calls σ ++ [(execute_query_all_async, kw)]
    ∧ conn execute_query_all_async kw (store σ) = (Returned rows, s)
    ∧ Forall2 (λ row projection,
                 ∃ stats,
                   row !! "stats" = Some (PDict stats)
                   ∧ ∀ status : Status,
                       projection !! Status_value status
                       = Some (default (PInt 0) (stats !! Status_value status)))
              rows out.
Proof.
  destruct which; unfold list_stats, list_queues_async, list_tasks_async, await;
    simpl;
    match goal with |- context [conn _ ?k (store σ)] => set (kw := k) end;
    (destruct (conn execute_query_all_async kw (store σ)) as [[rows|e] s] eqn:Hconn;
     simpl; [|done]);
    match goal with |- context [run us conn (mapM stats_projection rows) ?m] =>
      destruct (run_mapM_stats_projection us conn rows m) as [Hpure Hout] end;
    intros Hrun; exists kw, rows, s; rewrite Hpure; (split; [done|]);
    (split; [done|]);
    (eapply Forall2_impl; [by apply Hout|]);
    intros row projection Hrow;
    apply (run_stats_projection_returned us conn row projection _ Hrow).
Qed.

(** ** The statements at concrete stores and inputs *)

Lemma uuid_source_inj : Inj (=) (=) Sample.uuid_source.
Proof.
  intros m n H. unfold Sample.uuid_source in H. simpl in H.
  injection H as H. by apply (inj pretty).
Qed.

(** The store refuses a periodic defer with a unique violation on the
    constraint of the periodic defers: the caller gets that violation, not
    [None]. *)
Lemma defer_periodic_job_violation_raised :
  let outcome :=
    (run Sample.uuid_source (Sample.raising Sample.periodic_violation)
       (defer_periodic_job Sample.QUEUEING_LOCK_CONSTRAINT Sample.queries
          (Sample.task None None) 1700000000)
       (Sample.start ())).1 in
  outcome = Raised Sample.periodic_violation ∧ outcome ≠ Returned PNone.
Proof. split; [reflexivity|discriminate]. Qed.

(** The store answers a periodic defer with a null [id]: the caller gets
    [None]; it raises a violation of the queueing-lock constraint: the caller
    gets [AlreadyEnqueued]. *)
Lemma defer_periodic_job_outcome_witness :
  (run Sample.uuid_source (Sample.answering Sample.empty_claim [])
     (defer_periodic_job Sample.QUEUEING_LOCK_CONSTRAINT Sample.queries
        (Sample.task None None) 1700000000)
     (Sample.start ())).1
  = Returned PNone
  ∧ (run Sample.uuid_source (Sample.raising Sample.queueing_lock_violation)
       (defer_periodic_job Sample.QUEUEING_LOCK_CONSTRAINT Sample.queries
          (Sample.task None (Some "nightly")) 1700000000)
       (Sample.start ())).1
    = Raised (AlreadyEnqueued
        "Job cannot be enqueued: there is already a job in the queue with the queueing lock nightly"
        Sample.queueing_lock_violation).
Proof.
  split.
  - destruct (defer_periodic_job_outcome Sample.QUEUEING_LOCK_CONSTRAINT
                Sample.queries Sample.uuid_source
                (Sample.answering Sample.empty_claim [])
                (Sample.task None None) 1700000000 (Sample.start ()))
      as (kw & _ & H).
    destruct (H _ _ eq_refl) as [Hrow _].
    exact (Hrow _ _ eq_refl eq_refl).
  - destruct (defer_periodic_job_outcome Sample.QUEUEING_LOCK_CONSTRAINT
                Sample.queries Sample.uuid_source
                (Sample.raising Sample.queueing_lock_violation)
                (Sample.task None (Some "nightly")) 1700000000 (Sample.start ()))
      as (kw & _ & H).
    destruct (H _ _ eq_refl) as [_ Hexc].
    destruct (Hexc _ _ eq_refl) as (_ & Hlock & _).
    exact (Hlock eq_refl).
Defined.

(** A second job with queueing lock [L1] is refused by the store. *)
Lemma defer_classifies_store_errors_witness :
  (run Sample.uuid_source (Sample.raising Sample.queueing_lock_violation)
     (defer_job_async Sample.QUEUEING_LOCK_CONSTRAINT Sample.queries
        (Sample.job None (Some "L1")))
     (Sample.start ())).1
  = Raised (AlreadyEnqueued
      "Job cannot be enqueued: there is already a job in the queue with the queueing lock L1"
      Sample.queueing_lock_violation)
  ∧ (run Sample.uuid_source (Sample.raising Sample.periodic_violation)
       (defer_job Sample.QUEUEING_LOCK_CONSTRAINT Sample.queries
          (Sample.job None (Some "L1")))
       (Sample.start ())).1
    = Raised Sample.periodic_violation.
Proof.
  split.
  - destruct (defer_classifies_store_errors Suspending
                Sample.QUEUEING_LOCK_CONSTRAINT Sample.queries Sample.uuid_source
                (Sample.raising Sample.queueing_lock_violation)
                (Sample.job None (Some "L1")) (Sample.start ()) _ _
                Sample.queueing_lock_violation () eq_refl eq_refl) as [H _].
    destruct (H _ _ eq_refl) as (_ & Hlock & _). exact (Hlock eq_refl).
  - destruct (defer_classifies_store_errors Blocking
                Sample.QUEUEING_LOCK_CONSTRAINT Sample.queries Sample.uuid_source
                (Sample.raising Sample.periodic_violation)
                (Sample.job None (Some "L1")) (Sample.start ()) _ _
                Sample.periodic_violation () eq_refl eq_refl) as [H _].
    destruct (H _ _ eq_refl) as (_ & _ & Hother). apply Hother. discriminate.
Defined.

(** On the numbering store both forms create the row 1. *)
Lemma defer_job_sync_async_agree_witness :
  (run Sample.uuid_source Sample.numbering
     (defer_job Sample.QUEUEING_LOCK_CONSTRAINT Sample.queries (Sample.job None None))
     (Sample.start 1%Z)).1
  = Returned (PInt 1)
  ∧ (run Sample.uuid_source Sample.numbering
       (defer_job_async Sample.QUEUEING_LOCK_CONSTRAINT Sample.queries
          (Sample.job None None))
       (Sample.start 1%Z)).1
    = Returned (PInt 1).
Proof.
  destruct (defer_job_sync_async_agree Sample.QUEUEING_LOCK_CONSTRAINT
              Sample.queries Sample.uuid_source Sample.numbering
              (Sample.job None None) (Sample.start 1%Z) (λ kw s, eq_refl))
    as (Hsame & _).
  split; [reflexivity|]. rewrite <- Hsame. reflexivity.
Defined.

(** A job deferred with the empty string as its lock: the lock handed to
    the store is the drawn token, not the lock supplied. *)
Lemma defer_job_empty_lock_replaced :
  ∃ kw,
    calls (run Sample.uuid_source Sample.numbering
             (defer_job Sample.QUEUEING_LOCK_CONSTRAINT Sample.queries
                (Sample.job (Some "") None))
             (Sample.start 1%Z)).2
    = [(execute_query_one, kw)]
    ∧ kw !! "lock" = Some (PStr "uuid4-0")
    ∧ kw !! "lock" ≠ Some (PStr "").
Proof. eexists. split; [reflexivity|]. split; [reflexivity|discriminate]. Qed.

(** Two jobs without lock, deferred one in each form, and a job with the
    lock [mailbox]. *)
Lemma defer_lock_parameter_witness :
  let first :=
    (run Sample.uuid_source Sample.numbering
       (defer_job Sample.QUEUEING_LOCK_CONSTRAINT Sample.queries (Sample.job None None))
       (Sample.start 1%Z)).2 in
  let second :=
    (run Sample.uuid_source Sample.numbering
       (defer_job_async Sample.QUEUEING_LOCK_CONSTRAINT Sample.queries
          (Sample.job None None))
       first).2 in
  let third :=
    (run Sample.uuid_source Sample.numbering
       (defer_job Sample.QUEUEING_LOCK_CONSTRAINT Sample.queries
          (Sample.job (Some "mailbox") None))
       second).2 in
  ∃ kw kw' kw'',
    calls first = [(execute_query_one, kw)]
    ∧ calls second = calls first ++ [(execute_query_one_async, kw')]
    ∧ calls third = calls second ++ [(execute_query_one, kw'')]
    ∧ kw !! "lock" = Some (PStr "uuid4-0")
    ∧ kw' !! "lock" = Some (PStr "uuid4-1")
    ∧ kw' !! "lock" ≠ kw !! "lock"
    ∧ kw'' !! "lock" = Some (PStr "mailbox").
Proof.
  intros first second third.
  destruct (defer_lock_parameter Blocking Sample.QUEUEING_LOCK_CONSTRAINT
              Sample.queries Sample.uuid_source Sample.numbering
              (Sample.job None None) (Sample.start 1%Z))
    as (kw & Hcalls & Hnone & _).
  destruct (Hnone eq_refl) as (Hlock & _ & Hfresh).
  destruct (Hfresh unit (Ret ()) Suspending (Sample.job None None)
              uuid_source_inj eq_refl)
    as (kw' & Hcalls' & Hlock' & Hne).
  destruct (defer_lock_parameter Blocking Sample.QUEUEING_LOCK_CONSTRAINT
              Sample.queries Sample.uuid_source Sample.numbering
              (Sample.job (Some "mailbox") None) second)
    as (kw'' & Hcalls'' & _ & Hsome).
  destruct (Hsome "mailbox" eq_refl) as [Hlock'' _]; [discriminate|].
  exists kw, kw', kw''.
  split; [exact Hcalls|]. split; [exact Hcalls'|]. split; [exact Hcalls''|].
  split; [exact Hlock|]. split; [exact Hlock'|]. split; [exact Hne|exact Hlock''].
Defined.

(** Two jobs with the empty string as lock, deferred one after the other. *)
Lemma defer_empty_lock_falls_back_witness :
  let first :=
    (run Sample.uuid_source Sample.numbering
       (defer_job_async Sample.QUEUEING_LOCK_CONSTRAINT Sample.queries
          (Sample.job (Some "") None))
       (Sample.start 1%Z)).2 in
  let second :=
    (run Sample.uuid_source Sample.numbering
       (defer_job_async Sample.QUEUEING_LOCK_CONSTRAINT Sample.queries
          (Sample.job (Some "") None))
       first).2 in
  ∃ kw kw',
    calls first = [(execute_query_one_async, kw)]
    ∧ calls second = calls first ++ [(execute_query_one_async, kw')]
    ∧ kw !! "lock" = Some (PStr "uuid4-0")
    ∧ kw' !! "lock" = Some (PStr "uuid4-1")
    ∧ kw' !! "lock" ≠ kw !! "lock".
Proof.
  intros first second.
  destruct (defer_empty_lock_falls_back Suspending Sample.QUEUEING_LOCK_CONSTRAINT
              Sample.queries Sample.uuid_source Sample.numbering
              (Sample.job (Some "") None) (Sample.start 1%Z) eq_refl)
    as (kw & Hcalls & Hlock & _ & Hfresh).
  destruct (Hfresh unit (Ret ()) Suspending (Sample.job (Some "") None)
              uuid_source_inj eq_refl)
    as (kw' & Hcalls' & Hlock' & Hne).
  exists kw, kw'.
  split; [exact Hcalls|]. split; [exact Hcalls'|]. split; [exact Hlock|].
  split; [exact Hlock'|exact Hne].
Defined.

(** A periodic task without lock is persisted with a null lock, a job
    without lock with a token. *)
Lemma defer_periodic_job_keeps_lock_witness :
  ∃ kw kw',
    calls (run Sample.uuid_source Sample.numbering
             (defer_periodic_job Sample.QUEUEING_LOCK_CONSTRAINT Sample.queries
                (Sample.task None None) 1700000000)
             (Sample.start 1%Z)).2
    = [(execute_query_one_async, kw)]
    ∧ kw !! "lock" = Some PNone
    ∧ calls (run Sample.uuid_source Sample.numbering
               (defer_job Sample.QUEUEING_LOCK_CONSTRAINT Sample.queries
                  (Sample.job None None))
               (Sample.start 1%Z)).2
      = [(execute_query_one, kw')]
    ∧ kw' !! "lock" = Some (PStr "uuid4-0").
Proof.
  destruct (defer_periodic_job_keeps_lock Sample.QUEUEING_LOCK_CONSTRAINT
              Sample.queries Sample.uuid_source Sample.numbering
              (Sample.task None None) 1700000000 (Sample.start 1%Z))
    as (_ & (kw & Hcalls & _ & Hnone) & Hjob).
  destruct (Hjob Blocking (Sample.job None None) eq_refl) as (kw' & Hcalls' & Hlock').
  exists kw, kw'. split; [exact Hcalls|]. split; [exact (Hnone eq_refl)|].
  split; [exact Hcalls'|exact Hlock'].
Defined.

(** A claim that finds nothing, and a claim that finds job 7. *)
Lemma fetch_job_none_or_job_witness :
  (run Sample.uuid_source (Sample.answering Sample.empty_claim [])
     (fetch_job Sample.queries Sample.from_row (Some ["default"]))
     (Sample.start ())).1
  = Returned None
  ∧ (run Sample.uuid_source (Sample.answering Sample.claimed [])
       (fetch_job Sample.queries Sample.from_row None)
       (Sample.start ())).1
    = Returned (Some (Job.make (Some 7%Z) "default" (Some "mailbox") None
                        "send_mail" ∅ None DOING 1)).
Proof.
  split.
  - destruct (fetch_job_none_or_job Sample.queries Sample.from_row
                Sample.uuid_source (Sample.answering Sample.empty_claim [])
                (Some ["default"]) (Sample.start ()) Sample.empty_claim ()
                eq_refl) as [Hnone _].
    exact (Hnone eq_refl).
  - destruct (fetch_job_none_or_job Sample.queries Sample.from_row
                Sample.uuid_source (Sample.answering Sample.claimed [])
                None (Sample.start ()) Sample.claimed () eq_refl) as [_ Hjob].
    apply (Hjob (PInt 7) eq_refl). discriminate.
Defined.

(** The statistics of a queue whose jobs are all [todo], asked by queue and
    by task. *)
Lemma list_stats_zero_filled_witness :
  (run Sample.uuid_source (Sample.answering ∅ [Sample.todo_only])
     (list_queues_async Sample.queries None None None None)
     (Sample.start ())).1
  = Returned [Sample.todo_only_projection]
  ∧ (run Sample.uuid_source (Sample.answering ∅ [Sample.todo_only])
       (list_tasks_async Sample.queries None None None None)
       (Sample.start ())).1
    = Returned [Sample.todo_only_projection]
  ∧ ∃ stats,
      Sample.todo_only !! "stats" = Some (PDict stats)
      ∧ Sample.todo_only_projection !! "todo"
        = Some (default (PInt 0) (stats !! "todo"))
      ∧ Sample.todo_only_projection !! "doing" = Some (PInt 0)
      ∧ Sample.todo_only_projection !! "succeeded" = Some (PInt 0)
      ∧ Sample.todo_only_projection !! "failed" = Some (PInt 0).
Proof.
  split; [reflexivity|]. split; [reflexivity|].
  destruct (list_stats_zero_filled Queues Sample.queries Sample.uuid_source
              (Sample.answering ∅ [Sample.todo_only]) None None None None
              (Sample.start ()) [Sample.todo_only_projection] eq_refl)
    as (kw & rows & s & _ & Hconn & Hrows).
  injection Hconn as <- _.
  apply Forall2_cons_1 in Hrows as [(stats & Hstats & Hrow) _].
  exists stats. split; [exact Hstats|].
  assert (stats = <["todo" := PInt 3]> ∅) as Hs.
  { unfold Sample.todo_only in Hstats.
    rewrite !lookup_insert_ne, lookup_insert_eq in Hstats by done.
    by injection Hstats. }
  split; [exact (Hrow TODO)|].
  pose proof (Hrow DOING) as Hdoing.
  pose proof (Hrow SUCCEEDED) as Hsucceeded.
  pose proof (Hrow FAILED) as Hfailed.
  rewrite Hs in Hdoing, Hsucceeded, Hfailed.
  split; [exact Hdoing|]. split; [exact Hsucceeded|exact Hfailed].
Defined.

(** * Further properties of the job manager *)

(** ** Comprehensions whose body leaves the machine alone *)

Section Comprehension.
Context {St A B : Type} (us : nat → string) (conn : connector St).
Context (f : A → prog B).
Hypothesis f_pure : ∀ x (σ : machine St), (run us conn (f x) σ).2 = σ.

Lemma run_mapM_pure (l : list A) (σ : machine St) :
  (run us conn (mapM f l) σ).2 = σ.
Proof.
  induction l as [|x l IH]; simpl; [done|].
  rewrite run_bind. pose proof (f_pure x σ) as Hx.
  destruct (run us conn (f x) σ) as [[y|e] σ']; simpl in Hx; subst σ'; [|done].
  rewrite run_bind.
  destruct (run us conn (mapM f l) σ) as [[k|e] σ']; simpl in IH; subst σ'; done.
Qed.

(** The comprehension returns exactly when its body returns on every
    element, and then with the bodies' results in order. *)
Lemma run_mapM_returned (l : list A) (out : list B) (σ : machine St) :
  (run us conn (mapM f l) σ).1 = Returned out
  ↔ Forall2 (λ x y, (run us conn (f x) σ).1 = Returned y) l out.
Proof.
  revert out. induction l as [|x l IH]; intros out; simpl.
  - split; [intros [= <-]; constructor|].
    intros ->%Forall2_nil_inv_l. reflexivity.
  - rewrite run_bind. pose proof (f_pure x σ) as Hx.
    destruct (run us conn (f x) σ) as [[y|e] σ'] eqn:Hfx; simpl in Hx; subst σ'.
    + rewrite run_bind. pose proof (run_mapM_pure l σ) as Hl.
      destruct (run us conn (mapM f l) σ) as [[k|e] σ'] eqn:Hfl;
        simpl in Hl; subst σ'.
      * split.
        -- intros [= <-]. constructor; [by rewrite Hfx|]. by apply IH.
        -- intros (y' & k' & Hy & Hk & ->)%Forall2_cons_inv_l.
           rewrite Hfx in Hy. injection Hy as <-.
           apply IH in Hk. by injection Hk as <-.
      * split; [done|].
        intros (y' & k' & _ & Hk & ->)%Forall2_cons_inv_l.
        by apply IH in Hk.
    + split; [done|].
      intros (y' & k' & Hy & _ & _)%Forall2_cons_inv_l. by rewrite Hfx in Hy.
Qed.

(** The comprehension raises what its body raises on the first element on
    which it raises. *)
Lemma run_mapM_raised (good rest : list A) (bad : A) (e : exn) (σ : machine St) :
  Forall (λ x, ∃ y, (run us conn (f x) σ).1 = Returned y) good →
  (run us conn (f bad) σ).1 = Raised e →
  (run us conn (mapM f (good ++ bad :: rest)) σ).1 = Raised e.
Proof.
  intros Hgood Hbad. induction Hgood as [|x good [y Hy] _ IH]; simpl.
  - rewrite run_bind. destruct (run us conn (f bad) σ) as [[y|e'] σ']; by simplify_eq/=.
  - rewrite run_bind. pose proof (f_pure x σ) as Hx.
    destruct (run us conn (f x) σ) as [[y'|e'] σ']; simpl in Hx, Hy; subst σ'; [|done].
    rewrite run_bind. simpl in IH.
    destruct (run us conn (mapM f (good ++ bad :: rest)) σ) as [[k|e'] σ'];
      by simplify_eq/=.
Qed.

(** Conversely, what the comprehension raises was raised by its body on one
    of the elements. *)
Lemma run_mapM_raised_inv (l : list A) (e : exn) (σ : machine St) :
  (run us conn (mapM f l) σ).1 = Raised e →
  ∃ x, x ∈ l ∧ (run us conn (f x) σ).1 = Raised e.
Proof.
  induction l as [|x l IH]; simpl; [done|].
  rewrite run_bind. pose proof (f_pure x σ) as Hx.
  destruct (run us conn (f x) σ) as [[y|e'] σ'] eqn:Hfx; simpl in Hx; subst σ'.
  - rewrite run_bind.
    destruct (run us conn (mapM f l) σ) as [[k|e'] σ']; simpl; [done|].
    intros [= ->]. destruct (IH eq_refl) as (x' & Hin & Hx').
    exists x'. split; [by apply list_elem_of_further|done].
  - simpl. intros [= ->]. exists x. split; [apply list_elem_of_here|].
    by rewrite Hfx.
Qed.
End Comprehension.

(** ** Channels *)

Lemma queue_channel_inj (queue queue' : string) :
  "procrastinate_queue#" +:+ queue = "procrastinate_queue#" +:+ queue' →
  queue = queue'.
Proof. intros H. cbv -[String.app] in H. by injection H. Qed.

Lemma queue_channels_inj (queues queues' : list string) :
  get_channel_for_queues (Some queues) = get_channel_for_queues (Some queues') →
  queues = queues'.
Proof.
  unfold get_channel_for_queues. apply list_fmap_eq_inj.
  intros q q'. apply queue_channel_inj.
Qed.

Lemma wildcard_not_queue_channel (queues : list string) :
  "procrastinate_any_queue" ∉ get_channel_for_queues (Some queues).
Proof.
  unfold get_channel_for_queues. intros (q & Hq & _)%list_elem_of_fmap.
  discriminate.
Qed.

Lemma wildcard_channel_iff (queues : option (list string)) :
  "procrastinate_any_queue" ∈ get_channel_for_queues queues ↔ queues = None.
Proof.
  destruct queues as [qs|]; split; try done.
  - by intros ?%wildcard_not_queue_channel.
  - intros _. apply list_elem_of_here.
Qed.

(** X1: two filters that give the same channels are the same filter: the
    mapping loses nothing, different queue names never share a channel, and
    the wildcard channel is the channel of no queue, whatever its name. *)
Theorem get_channel_for_queues_inj (queues queues' : option (list string)) :
  get_channel_for_queues queues = get_channel_for_queues queues' →
  queues = queues'
  ∧ ("procrastinate_any_queue" ∈ get_channel_for_queues queues ↔ queues = None).
Proof.
  intros Heq. split; [|apply wildcard_channel_iff].
  destruct queues as [qs|], queues' as [qs'|]; try done.
  - f_equal. by apply queue_channels_inj.
  - exfalso. apply (wildcard_not_queue_channel qs). rewrite Heq. apply list_elem_of_here.
  - exfalso. apply (wildcard_not_queue_channel qs'). rewrite <- Heq. apply list_elem_of_here.
Qed.

Lemma get_channel_for_queues_inj_witness :
  get_channel_for_queues (Some ["mail"; "sms"])
  = get_channel_for_queues (Some ["mail"; "sms"])
  ∧ ("procrastinate_any_queue" ∈ get_channel_for_queues (Some ["mail"; "sms"])
     ↔ Some ["mail"; "sms"] = None).
Proof.
  split; [reflexivity|].
  exact (proj2 (get_channel_for_queues_inj (Some ["mail"; "sms"])
                  (Some ["mail"; "sms"]) eq_refl)).
Defined.

(** X2: [listen_for_jobs] draws nothing and calls [listen_notify] once, with
    the channels of its filter: the wildcard channel is among them only when
    there is no filter, a collection of queues gives as many channels as
    queues, so none for an empty one; what the connector raises reaches the
    caller. *)
Theorem listen_for_jobs_subscription {St} (us : nat → string)
    (conn : connector St) (event : nat) (queues : option (list string))
    (σ : machine St) :
  let result := run us conn (listen_for_jobs event queues) σ in
  ∃ kw channels,
    calls result.2 = calls σ ++ [(listen_notify, kw)]
    ∧ drawn result.2 = drawn σ
    ∧ kw !! "event" = Some (PObject event)
    ∧ kw !! "channels" = Some (PList (PStr <$> channels))
    ∧ ("procrastinate_any_queue" ∈ channels ↔ queues = None)
    ∧ (∀ qs, queues = Some qs →
         length channels = length qs
         ∧ ∀ i q, qs !! i = Some q →
             channels !! i = Some ("procrastinate_queue#" +:+ q))
    ∧ result.1 = match (conn listen_notify kw (store σ)).1 with
                 | Returned _ => Returned ()
                 | Raised e => Raised e
                 end.
Proof.
  intros result. subst result. unfold listen_for_jobs, await. simpl.
  match goal with |- context [conn _ ?k (store σ)] => exists k end.
  exists (get_channel_for_queues queues).
  split; [by destruct (conn _ _ (store σ)) as [[r|e] s]|].
  split; [by destruct (conn _ _ (store σ)) as [[r|e] s]|].
  split; [reflexivity|]. split; [reflexivity|]. split.
  - apply wildcard_channel_iff.
  - split.
    + intros qs ->. unfold get_channel_for_queues. split; [apply length_fmap|].
      intros i q Hq. by rewrite list_lookup_fmap, Hq.
    + by destruct (conn _ _ (store σ)) as [[[]|e] s].
Qed.

Lemma listen_for_jobs_subscription_witness :
  ∃ kw channels,
    calls (run Sample.uuid_source (Sample.answering ∅ [])
             (listen_for_jobs 1 (Some ["mail"])) (Sample.start ())).2
    = [(listen_notify, kw)]
    ∧ kw !! "channels" = Some (PList (PStr <$> channels))
    ∧ length channels = 1
    ∧ channels !! 0 = Some "procrastinate_queue#mail".
Proof.
  destruct (listen_for_jobs_subscription Sample.uuid_source
              (Sample.answering ∅ []) 1 (Some ["mail"]) (Sample.start ()))
    as (kw & channels & Hcalls & _ & _ & Hchannels & _ & Hqueues & _).
  destruct (Hqueues ["mail"] eq_refl) as [Hlen Hnth].
  exists kw, channels. split; [exact Hcalls|]. split; [exact Hchannels|].
  split; [exact Hlen|exact (Hnth 0 "mail" eq_refl)].
Defined.

(** ** Finishing and retrying *)

(** X3: for a job whose [id] is a non-zero integer the assertion of
    [finish_job] holds, and the method then draws nothing and issues one
    query with that [id] and the value of the given status, which may be any
    of the four, terminal or not; what the connector raises reaches the
    caller. *)
Theorem finish_job_with_id {St} (queries : string → string)
    (us : nat → string) (conn : connector St) (job : Job.t) (status : Status)
    (id : Z) (σ : machine St) :
  Job.id job = Some id →
  id ≠ 0%Z →
  ∃ p kw,
    finish_job queries job status = Asserted p
    ∧ calls (run us conn p σ).2 = calls σ ++ [(execute_query_async, kw)]
    ∧ drawn (run us conn p σ).2 = drawn σ
    ∧ kw !! "job_id" = Some (PInt id)
    ∧ kw !! "status" = Some (PStr (Status_value status))
    ∧ kw !! "query" = Some (PStr (queries "finish_job"))
    ∧ (run us conn p σ).1
      = match (conn execute_query_async kw (store σ)).1 with
        | Returned _ => Returned ()
        | Raised e => Raised e
        end.
Proof.
  intros Hid Hne. unfold finish_job. rewrite Hid. simpl.
  rewrite bool_decide_eq_true_2 by done.
  eexists. unfold await.
  match goal with |- context [Call _ ?k _] => exists k end.
  split; [reflexivity|]. simpl.
  destruct (conn _ _ (store σ)) as [[[]|e] s]; repeat split; reflexivity.
Qed.

Lemma finish_job_with_id_witness :
  ∃ p kw,
    finish_job Sample.queries
      (Job.make (Some 7%Z) "default" None None "send_mail" ∅ None DOING 1) TODO
    = Asserted p
    ∧ calls (run Sample.uuid_source (Sample.answering ∅ []) p (Sample.start ())).2
      = [(execute_query_async, kw)]
    ∧ kw !! "job_id" = Some (PInt 7)
    ∧ kw !! "status" = Some (PStr "todo").
Proof.
  destruct (finish_job_with_id Sample.queries Sample.uuid_source
              (Sample.answering ∅ [])
              (Job.make (Some 7%Z) "default" None None "send_mail" ∅ None DOING 1)
              TODO 7 (Sample.start ()) eq_refl)
    as (p & kw & Hp & Hcalls & _ & Hid & Hstatus & _); [discriminate|].
  exists p, kw. split; [exact Hp|]. split; [exact Hcalls|].
  split; [exact Hid|exact Hstatus].
Defined.

(** X4: a job without [id], or with the [id] 0, is refused by [finish_job]
    with [AssertionError] before any query is built, whereas [retry_job]
    asserts nothing: it issues its one query all the same, with the [id] as
    it is, null included. *)
Theorem finish_job_asserts_retry_job_does_not {St} (queries : string → string)
    (us : nat → string) (conn : connector St) (job : Job.t) (status : Status)
    (retry_at : Z) (σ : machine St) :
  Job.id job = None ∨ Job.id job = Some 0%Z →
  finish_job queries job status = AssertionError
  ∧ ∃ kw,
      calls (run us conn (retry_job queries job retry_at) σ).2
      = calls σ ++ [(execute_query_async, kw)]
      ∧ kw !! "job_id" = Some (of_opt_int (Job.id job))
      ∧ kw !! "retry_at" = Some (PDatetime retry_at)
      ∧ (run us conn (retry_job queries job retry_at) σ).1
        = match (conn execute_query_async kw (store σ)).1 with
          | Returned _ => Returned ()
          | Raised e => Raised e
          end.
Proof.
  intros Hid. split.
  - unfold finish_job. by destruct Hid as [-> | ->].
  - unfold retry_job, await. simpl.
    match goal with |- context [conn _ ?k (store σ)] => exists k end.
    destruct (conn _ _ (store σ)) as [[[]|e] s]; repeat split; reflexivity.
Qed.

Lemma finish_job_asserts_retry_job_does_not_witness :
  finish_job Sample.queries (Sample.job None None) SUCCEEDED = AssertionError
  ∧ ∃ kw,
      calls (run Sample.uuid_source (Sample.answering ∅ [])
               (retry_job Sample.queries (Sample.job None None) 1700000000)
               (Sample.start ())).2
      = [(execute_query_async, kw)]
      ∧ kw !! "job_id" = Some PNone.
Proof.
  destruct (finish_job_asserts_retry_job_does_not Sample.queries
              Sample.uuid_source (Sample.answering ∅ []) (Sample.job None None)
              SUCCEEDED 1700000000 (Sample.start ()) (or_introl eq_refl))
    as (Hfinish & kw & Hcalls & Hid & _).
  split; [exact Hfinish|]. exists kw. split; [exact Hcalls|exact Hid].
Defined.

(** ** The liveness probe *)

(** X5: [check_connection] answers [False] only when the store's row
    carries a null [check], and [True] only when it carries any other value;
    a row without [check] raises [KeyError], and what the connector raises
    reaches the caller: a failing store is never reported as [False]. *)
Theorem check_connection_outcome {St} (queries : string → string)
    (us : nat → string) (conn : connector St) (σ : machine St)
    (r : reply (gmap string pyval)) (s : St) :
  conn execute_query_one_async
    (<["query" := PStr (queries "check_connection")]> ∅) (store σ) = (r, s) →
  let outcome := (run us conn (check_connection queries) σ).1 in
  (outcome = Returned false ↔ ∃ row, r = Returned row ∧ row !! "check" = Some PNone)
  ∧ (outcome = Returned true
     ↔ ∃ row v, r = Returned row ∧ row !! "check" = Some v ∧ v ≠ PNone)
  ∧ (outcome = Raised (KeyError "check")
     ↔ (∃ row, r = Returned row ∧ row !! "check" = None)
       ∨ r = Raised (KeyError "check"))
  ∧ (∀ e, r = Raised e → outcome = Raised e).
Proof.
  intros Hconn outcome. subst outcome.
  unfold check_connection, await. simpl. rewrite Hconn.
  cbv [result_of operation_of execute_query_one_async] in *.
  destruct r as [row|e]; simpl.
  - unfold subscript. destruct (row !! "check") as [v|] eqn:Hcheck; simpl.
    + destruct v; simpl; repeat split; try done;
        try (intros (row' & [= <-] & Hv); congruence);
        try (intros (row' & v' & [= <-] & Hv & Hne); congruence);
        try (intros [(row' & [= <-] & Hv)|?]; congruence);
        try (intros _; eauto 6; fail).
      all: intros _; eexists _, _; repeat split; try done.
    + repeat split; try done;
        try (intros (row' & [= <-] & Hv); congruence);
        try (intros (row' & v' & [= <-] & Hv & Hne); congruence).
      intros _. left. eauto.
  - repeat split; try done;
      try (intros (row' & [= ] & Hv); fail);
      try (intros (row' & v' & [=] & Hv & Hne); fail).
    + intros [= ->]. by right.
    + intros [(row' & [=] & _)|[= ->]]. done.
    + by intros e' [= ->].
Qed.

Lemma check_connection_outcome_witness :
  (run Sample.uuid_source (Sample.answering (<["check" := PNone]> ∅) [])
     (check_connection Sample.queries) (Sample.start ())).1
  = Returned false
  ∧ (run Sample.uuid_source (Sample.raising (ConnectorException "connection refused"))
       (check_connection Sample.queries) (Sample.start ())).1
    = Raised (ConnectorException "connection refused").
Proof.
  split.
  - destruct (check_connection_outcome Sample.queries Sample.uuid_source
                (Sample.answering (<["check" := PNone]> ∅) []) (Sample.start ())
                _ _ eq_refl) as (Hfalse & _).
    apply Hfalse. eexists. split; reflexivity.
  - destruct (check_connection_outcome Sample.queries Sample.uuid_source
                (Sample.raising (ConnectorException "connection refused"))
                (Sample.start ()) _ _ eq_refl) as (_ & _ & _ & Hraise).
    exact (Hraise _ eq_refl).
Defined.

(** ** Listing jobs *)

Ltac in_list :=
  repeat first [apply list_elem_of_here | apply list_elem_of_further].

Section Listing.
Context {St : Type} (us : nat → string) (conn : connector St).

(** Going through the columns of a row in the order of the comprehension;
    [miss] closes the goal of a column that is missing. *)
Ltac columns row miss :=
  unfold job_projection, subscript;
  destruct (row !! "id") eqn:?; simpl; [|miss];
  destruct (row !! "queue_name") eqn:?; simpl; [|miss];
  destruct (row !! "task_name") eqn:?; simpl; [|miss];
  destruct (row !! "lock") eqn:?; simpl; [|miss];
  destruct (row !! "queueing_lock") eqn:?; simpl; [|miss];
  destruct (row !! "args") eqn:?; simpl; [|miss];
  destruct (row !! "status") eqn:?; simpl; [|miss];
  destruct (row !! "scheduled_at") eqn:?; simpl; [|miss];
  destruct (row !! "attempts") eqn:?; simpl; [|miss].

Lemma run_job_projection_pure (row : gmap string pyval) (σ : machine St) :
  (run us conn (job_projection row) σ).2 = σ.
Proof. columns row ltac:(reflexivity). reflexivity. Qed.

(** A projection that is produced has the nine keys and no other, each with
    the value of its column. *)
Lemma run_job_projection_returned (row projection : gmap string pyval)
    (σ : machine St) :
  (run us conn (job_projection row) σ).1 = Returned projection →
  dom projection = list_to_set job_keys
  ∧ Forall2 (λ key column, is_Some (row !! column)
                           ∧ projection !! key = row !! column)
      job_keys job_columns.
Proof.
  columns row ltac:(discriminate).
  intros [= <-]. split.
  - rewrite !dom_insert_L, dom_empty_L. unfold job_keys. simpl. set_solver.
  - unfold job_keys, job_columns.
    repeat (constructor; [split; [by eexists|]; (etrans; [reflexivity|done])|]).
    constructor.
Qed.

(** A row with its nine columns gets its projection. *)
Lemma run_job_projection_complete (row : gmap string pyval) (σ : machine St) :
  Forall (λ column, is_Some (row !! column)) job_columns →
  ∃ projection, (run us conn (job_projection row) σ).1 = Returned projection.
Proof.
  unfold job_columns. rewrite Forall_forall. intros H.
  columns row ltac:(idtac; match goal with E : row !! ?k = None |- _ =>
                      destruct (H k) as [? Hs]; [in_list|rewrite E in Hs; discriminate] end).
  by eexists.
Qed.

(** What the projection of a row raises is the [KeyError] of a column that
    the row lacks. *)
Lemma run_job_projection_raised (row : gmap string pyval) (e : exn)
    (σ : machine St) :
  (run us conn (job_projection row) σ).1 = Raised e →
  ∃ column, column ∈ job_columns ∧ row !! column = None ∧ e = KeyError column.
Proof.
  unfold job_columns.
  columns row ltac:(intros [= <-];
                    match goal with E : row !! ?k = None |- _ =>
                      exists k; split; [in_list|by split] end).
  discriminate.
Qed.

Lemma run_mapM_job_projection_pure (rows : list (gmap string pyval))
    (σ : machine St) :
  (run us conn (mapM job_projection rows) σ).2 = σ.
Proof. apply run_mapM_pure, run_job_projection_pure. Qed.

Lemma run_mapM_job_projection_complete (rows : list (gmap string pyval))
    (σ : machine St) :
  Forall (λ row : gmap string pyval,
            Forall (λ column, is_Some (row !! column)) job_columns) rows →
  ∃ out, (run us conn (mapM job_projection rows) σ).1 = Returned out
       ∧ length out = length rows.
Proof.
  intros Hrows.
  assert (∃ out, Forall2 (λ row projection,
            (run us conn (job_projection row) σ).1 = Returned projection)
            rows out) as [out Hout].
  { induction Hrows as [|row rows Hrow _ [out IH]]; [by exists []|].
    destruct (run_job_projection_complete row σ Hrow) as [projection Hprojection].
    exists (projection :: out). by constructor. }
  exists out. split; [|symmetry; by eapply Forall2_length].
  apply run_mapM_returned; [apply run_job_projection_pure|done].
Qed.
End Listing.

(** X6: the listing that [list_jobs_async] returns has one projection per
    row of the store's answer, in its order; each has the nine keys [id],
    [queue], [task], [lock], [queueing_lock], [args], [status],
    [scheduled_at] and [attempts] and no other, with the values of the row's
    columns, [queue] and [task] being read from [queue_name] and
    [task_name]; the filters reach the store under the column names. *)
Theorem list_jobs_async_projection {St} (queries : string → string)
    (us : nat → string) (conn : connector St) (id : option Z)
    (queue task status lock queueing_lock : option string) (σ : machine St)
    (out : list (gmap string pyval)) :
  (run us conn (list_jobs_async queries id queue task status lock queueing_lock) σ).1
  = Returned out →
  ∃ kw rows s,
    calls (run us conn
             (list_jobs_async queries id queue task status lock queueing_lock) σ).2
    = calls σ ++ [(execute_query_all_async, kw)]
    ∧ kw !! "id" = Some (of_opt_int id)
    ∧ kw !! "queue_name" = Some (of_opt_str queue)
    ∧ kw !! "task_name" = Some (of_opt_str task)
    ∧ kw !! "status" = Some (of_opt_str status)
    ∧ kw !! "lock" = Some (of_opt_str lock)
    ∧ kw !! "queueing_lock" = Some (of_opt_str queueing_lock)
    ∧ conn execute_query_all_async kw (store σ) = (Returned rows, s)
    ∧ Forall2 (λ row projection,
                 dom projection = list_to_set job_keys
                 ∧ Forall2 (λ key column, is_Some (row !! column)
                                          ∧ projection !! key = row !! column)
                     job_keys job_columns)
              rows out.
Proof.
  unfold list_jobs_async, await. simpl.
  match goal with |- context [conn _ ?k (store σ)] => set (kw := k) end.
  destruct (conn execute_query_all_async kw (store σ)) as [[rows|e] s] eqn:Hconn;
    simpl; [|done].
  rewrite run_mapM_job_projection_pure.
  intros Hout. exists kw, rows, s. do 7 (split; [reflexivity|]). split; [done|].
  apply run_mapM_returned in Hout; [|apply run_job_projection_pure].
  eapply Forall2_impl; [exact Hout|].
  intros row projection Hrow.
  apply (run_job_projection_returned us conn row projection _ Hrow).
Qed.

(** X7: [list_jobs_async] returns a listing exactly when every row of the
    store's answer has the nine columns; one row that lacks a column makes
    the whole listing fail with the [KeyError] of a column that a row lacks:
    no default stands in for a missing column. *)
Theorem list_jobs_async_all_or_nothing {St} (queries : string → string)
    (us : nat → string) (conn : connector St) (id : option Z)
    (queue task status lock queueing_lock : option string) (σ : machine St) :
  let result :=
    run us conn (list_jobs_async queries id queue task status lock queueing_lock) σ in
  ∃ kw,
    calls result.2 = calls σ ++ [(execute_query_all_async, kw)]
    ∧ ∀ rows s, conn execute_query_all_async kw (store σ) = (Returned rows, s) →
        ((∃ out, result.1 = Returned out ∧ length out = length rows)
         ↔ Forall (λ row : gmap string pyval,
                     Forall (λ column, is_Some (row !! column)) job_columns) rows)
        ∧ (∀ e, result.1 = Raised e →
             ∃ row column,
               row ∈ rows ∧ column ∈ job_columns ∧ row !! column = None
               ∧ e = KeyError column).
Proof.
  intros result. subst result. unfold list_jobs_async, await. simpl.
  match goal with |- context [conn _ ?k (store σ)] => set (kw := k) end.
  exists kw.
  destruct (conn execute_query_all_async kw (store σ)) as [[rows|e] s] eqn:Hconn;
    simpl; (split; [by rewrite ?run_mapM_job_projection_pure|]);
    intros rows' s' [= <- <-].
  split.
  - split.
    + intros (out & Hout & Hlen).
      apply run_mapM_returned in Hout; [|apply run_job_projection_pure].
      apply Forall_forall. intros row Hin.
      apply list_elem_of_lookup in Hin as [i Hi].
      destruct (Forall2_lookup_l _ _ _ _ _ Hout Hi) as (projection & _ & Hrow).
      apply run_job_projection_returned in Hrow as [_ Hcolumns].
      apply Forall_forall. intros column Hcolumn.
      apply list_elem_of_lookup in Hcolumn as [j Hj].
      by destruct (Forall2_lookup_r _ _ _ _ _ Hcolumns Hj) as (key & _ & Hsome & _).
    + intros Hrows. by apply run_mapM_job_projection_complete.
  - intros e He.
    apply run_mapM_raised_inv in He as (row & Hin & Hrow);
      [|apply run_job_projection_pure].
    apply run_job_projection_raised in Hrow as (column & Hcolumn & Hnone & ->).
    by exists row, column.
Qed.

Lemma list_jobs_async_projection_witness :
  let out :=
    [<["id" := PInt 7]> (<["queue" := PStr "default"]>
     (<["task" := PStr "send_mail"]> (<["lock" := PStr "mailbox"]>
     (<["queueing_lock" := PNone]> (<["args" := PDict ∅]>
     (<["status" := PStr "doing"]> (<["scheduled_at" := PNone]>
     (<["attempts" := PInt 1]> ∅))))))))] in
  (run Sample.uuid_source (Sample.answering ∅ [Sample.claimed])
     (list_jobs_async Sample.queries (Some 7%Z) None None None None None)
     (Sample.start ())).1
  = Returned out
  ∧ ∃ kw,
      calls (run Sample.uuid_source (Sample.answering ∅ [Sample.claimed])
               (list_jobs_async Sample.queries (Some 7%Z) None None None None None)
               (Sample.start ())).2
      = [(execute_query_all_async, kw)]
      ∧ kw !! "id" = Some (PInt 7)
      ∧ Forall (λ projection : gmap string pyval,
                  dom projection = list_to_set job_keys) out.
Proof.
  intros out. split; [reflexivity|].
  destruct (list_jobs_async_projection Sample.queries Sample.uuid_source
              (Sample.answering ∅ [Sample.claimed]) (Some 7%Z) None None None
              None None (Sample.start ()) out eq_refl)
    as (kw & rows & s & Hcalls & Hid & _ & _ & _ & _ & _ & _ & Hout).
  exists kw. split; [exact Hcalls|]. split; [exact Hid|].
  apply Forall_forall. intros projection Hin.
  apply list_elem_of_lookup in Hin as [i Hi].
  destruct (Forall2_lookup_r _ _ _ _ _ Hout Hi) as (row & _ & Hdom & _).
  exact Hdom.
Defined.

Lemma list_jobs_async_all_or_nothing_witness :
  ∃ row column,
    row ∈ [Sample.claimed; Sample.todo_only]
    ∧ row !! column = None
    ∧ (run Sample.uuid_source
         (Sample.answering ∅ [Sample.claimed; Sample.todo_only])
         (list_jobs_async Sample.queries None None None None None None)
         (Sample.start ())).1
      = Raised (KeyError column).
Proof.
  destruct (list_jobs_async_all_or_nothing Sample.queries Sample.uuid_source
              (Sample.answering ∅ [Sample.claimed; Sample.todo_only])
              None None None None None None (Sample.start ()))
    as (kw & _ & H).
  destruct (H _ _ eq_refl) as [_ Hraise].
  destruct (Hraise (KeyError "id") eq_refl) as (row & column & Hin & _ & Hnone & Heq).
  exists row, column. split; [exact Hin|]. split; [exact Hnone|].
  rewrite <- Heq. reflexivity.
Defined.

(** ** Statistics: all rows or none *)

Section StatsErrors.
Context {St : Type} (us : nat → string) (conn : connector St).

Lemma run_stats_projection_returned_row (row projection : gmap string pyval)
    (σ : machine St) :
  (run us conn (stats_projection row) σ).1 = Returned projection →
  stats_row row.
Proof.
  unfold stats_projection, subscript, stats_row.
  destruct (row !! "name"); [|done].
  destruct (row !! "jobs_count"); [|done].
  destruct (row !! "stats") as [[| | | | | | | |stats]|]; try done.
  intros _. eauto.
Qed.

(** What the projection of a row of statistics raises: the [KeyError] of a
    column that the row lacks, or the [AttributeError] of a [stats] that is
    not a dictionary. *)
Lemma run_stats_projection_raised (row : gmap string pyval) (e : exn)
    (σ : machine St) :
  (run us conn (stats_projection row) σ).1 = Raised e →
  (∃ column, column ∈ ["name"; "jobs_count"; "stats"]
             ∧ row !! column = None ∧ e = KeyError column)
  ∨ (∃ v, row !! "stats" = Some v ∧ (∀ d, v ≠ PDict d)
          ∧ e = AttributeError "get").
Proof.
  unfold stats_projection, subscript.
  destruct (row !! "name") eqn:Hname; simpl;
    [|intros [= <-]; left; exists "name"; split; [in_list|done]].
  destruct (row !! "jobs_count") eqn:Hcount; simpl;
    [|intros [= <-]; left; exists "jobs_count"; split; [in_list|done]].
  destruct (row !! "stats") as [v|] eqn:Hstats; simpl;
    [|intros [= <-]; left; exists "stats"; split; [in_list|done]].
  destruct v; simpl; try done;
    intros [= <-]; right; eexists; (split; [done|]); split; done.
Qed.

Lemma run_mapM_stats_all_or_nothing (rows : list (gmap string pyval))
    (σ : machine St) :
  ((∃ out, (run us conn (mapM stats_projection rows) σ).1 = Returned out
           ∧ length out = length rows)
   ↔ Forall stats_row rows)
  ∧ (∀ e, (run us conn (mapM stats_projection rows) σ).1 = Raised e →
       ∃ row, row ∈ rows
         ∧ ((∃ column, column ∈ ["name"; "jobs_count"; "stats"]
                       ∧ row !! column = None ∧ e = KeyError column)
            ∨ (∃ v, row !! "stats" = Some v ∧ (∀ d, v ≠ PDict d)
                    ∧ e = AttributeError "get"))).
Proof.
  split; [split|].
  - intros (out & Hout & Hlen).
    apply run_mapM_returned in Hout; [|apply run_stats_projection_pure].
    apply Forall_forall. intros row Hin.
    apply list_elem_of_lookup in Hin as [i Hi].
    destruct (Forall2_lookup_l _ _ _ _ _ Hout Hi) as (projection & _ & Hrow).
    by apply run_stats_projection_returned_row in Hrow.
  - intros Hrows.
    destruct (run_mapM_stats_projection_total us conn rows σ Hrows)
      as (out & Hout & Hlen).
    exists out. by rewrite Hout.
  - intros e He.
    apply run_mapM_raised_inv in He as (row & Hin & Hrow);
      [|apply run_stats_projection_pure].
    exists row. split; [done|]. by apply run_stats_projection_raised in Hrow.
Qed.
End StatsErrors.

(** X8: [list_queues_async] and [list_tasks_async] return statistics
    exactly when every row of the store's answer has [name], [jobs_count]
    and a dictionary as [stats]; otherwise the whole call fails, with the
    [KeyError] of a column that a row lacks, or with [AttributeError] for a
    row whose [stats] is not a dictionary, null included: zeros stand in for
    missing buckets only, never for missing statistics. *)
Theorem list_stats_all_or_nothing {St} (which : stats_operation)
    (queries : string → string) (us : nat → string) (conn : connector St)
    (queue task status lock : option string) (σ : machine St) :
  let result := run us conn (list_stats which queries queue task status lock) σ in
  ∃ kw,
    calls result.2 = calls σ ++ [(execute_query_all_async, kw)]
    ∧ ∀ rows s, conn execute_query_all_async kw (store σ) = (Returned rows, s) →
        ((∃ out, result.1 = Returned out ∧ length out = length rows)
         ↔ Forall stats_row rows)
        ∧ (∀ e, result.1 = Raised e →
             ∃ row, row ∈ rows
               ∧ ((∃ column, column ∈ ["name"; "jobs_count"; "stats"]
                             ∧ row !! column = None ∧ e = KeyError column)
                  ∨ (∃ v, row !! "stats" = Some v ∧ (∀ d, v ≠ PDict d)
                          ∧ e = AttributeError "get"))).
Proof.
  intros result. subst result.
  destruct which; unfold list_stats, list_queues_async, list_tasks_async, await;
    simpl;
    match goal with |- context [conn _ ?k (store σ)] => set (kw := k) end;
    exists kw;
    (destruct (conn execute_query_all_async kw (store σ)) as [[rows|e] s] eqn:Hconn;
     simpl;
     (split; [by rewrite ?(run_mapM_pure us conn stats_projection
                             (run_stats_projection_pure us conn))|]);
     intros rows' s' [= <- <-]);
    apply run_mapM_stats_all_or_nothing.
Qed.

Lemma list_stats_all_or_nothing_witness :
  ∃ row v,
    row ∈ [Sample.todo_only; <["stats" := PNone]> Sample.todo_only]
    ∧ row !! "stats" = Some v ∧ (∀ d, v ≠ PDict d)
    ∧ (run Sample.uuid_source
         (Sample.answering ∅ [Sample.todo_only; <["stats" := PNone]> Sample.todo_only])
         (list_queues_async Sample.queries None None None None)
         (Sample.start ())).1
      = Raised (AttributeError "get").
Proof.
  destruct (list_stats_all_or_nothing Queues Sample.queries Sample.uuid_source
              (Sample.answering ∅
                 [Sample.todo_only; <["stats" := PNone]> Sample.todo_only])
              None None None None (Sample.start ()))
    as (kw & _ & H).
  destruct (H _ _ eq_refl) as [_ Hraise].
  destruct (Hraise (AttributeError "get") eq_refl)
    as (row & Hin & [(column & _ & _ & [=])|(v & Hv & Hdict & _)]).
  exists row, v. split; [exact Hin|]. split; [exact Hv|]. split; [exact Hdict|].
  reflexivity.
Defined.

(** ** Setting the status of a job *)

(** One run of [set_job_status_async]: the update, then, if the update
    returned, the listing of the job, run from the machine the update
    left. *)
Lemma run_set_job_status_async {St} (queries : string → string)
    (us : nat → string) (conn : connector St) (id : Z) (status : string)
    (σ : machine St) :
  let update :=
    <["query" := PStr (queries "set_job_status")]>
      (<["id" := PInt id]> (<["status" := PStr status]> ∅)) in
  run us conn (set_job_status_async queries id status) σ
  = (let '(r, s) := conn execute_query_async update (store σ) in
     let updated := Machine (drawn σ) s (calls σ ++ [(execute_query_async, update)]) in
     match r with
     | Raised e => (Raised e, updated)
     | Returned _ =>
         let '(listing, σ') :=
           run us conn (list_jobs_async queries (Some id) None None None None None)
             updated in
         (match listing with
          | Returned [result] => Returned (Unpacked result)
          | Returned _ => Returned ValueError
          | Raised e => Raised e
          end, σ')
     end).
Proof.
  intros update. unfold set_job_status_async.
  rewrite (run_bind us conn (await execute_query_async _) _ σ).
  unfold await at 1. cbn [run]. fold update.
  destruct (conn execute_query_async update (store σ)) as [[[]|e] s];
    cbn [run]; [|done].
  rewrite (run_bind us conn (list_jobs_async _ _ _ _ _ _ _) _ _).
  destruct (run us conn (list_jobs_async queries (Some id) None None None None None) _)
    as [[[|result [|]]|e] σ']; done.
Qed.

(** X9: [set_job_status_async] first issues the update, with the [id] and
    the status as given, whatever the status; when the update raises, the
    exception reaches the caller and the job is not listed: the update is the
    only call made. *)
Theorem set_job_status_async_update_first {St} (queries : string → string)
    (us : nat → string) (conn : connector St) (id : Z) (status : string)
    (σ : machine St) :
  let result := run us conn (set_job_status_async queries id status) σ in
  ∃ update,
    update !! "id" = Some (PInt id)
    ∧ update !! "status" = Some (PStr status)
    ∧ update !! "query" = Some (PStr (queries "set_job_status"))
    ∧ [(execute_query_async, update)] `prefix_of` drop (length (calls σ)) (calls result.2)
    ∧ ∀ e s, conn execute_query_async update (store σ) = (Raised e, s) →
        result.1 = Raised e
        ∧ calls result.2 = calls σ ++ [(execute_query_async, update)]
        ∧ store result.2 = s.
Proof.
  intros result. subst result. rewrite run_set_job_status_async.
  match goal with |- context [conn _ ?k (store σ)] => set (update := k) end.
  exists update. do 3 (split; [reflexivity|]).
  split.
  - destruct (conn execute_query_async update (store σ)) as [[[]|e] s].
    + cbv zeta.
      match goal with |- context [run us conn (list_jobs_async ?q ?i ?a ?b ?c ?d ?e) ?m] =>
        pose proof (run_calls_prefix us conn (list_jobs_async q i a b c d e) m)
          as [rest Hrest];
        destruct (run us conn (list_jobs_async q i a b c d e) m) as [listing σ']
      end.
      simpl in *. rewrite Hrest.
      rewrite <- app_assoc, drop_app_length. by apply prefix_app_r.
    + simpl. by rewrite drop_app_length.
  - intros e s Hconn. by rewrite Hconn.
Qed.

Lemma set_job_status_async_update_first_witness :
  (run Sample.uuid_source (Sample.raising (ConnectorException "connection lost"))
     (set_job_status_async Sample.queries 7 "todo") (Sample.start ())).1
  = Raised (ConnectorException "connection lost")
  ∧ ∃ update,
      calls (run Sample.uuid_source
               (Sample.raising (ConnectorException "connection lost"))
               (set_job_status_async Sample.queries 7 "todo") (Sample.start ())).2
      = [(execute_query_async, update)]
      ∧ update !! "status" = Some (PStr "todo").
Proof.
  destruct (set_job_status_async_update_first Sample.queries Sample.uuid_source
              (Sample.raising (ConnectorException "connection lost")) 7 "todo"
              (Sample.start ()))
    as (update & _ & Hstatus & _ & _ & Hraise).
  destruct (Hraise _ _ eq_refl) as (Houtcome & Hcalls & _).
  split; [exact Houtcome|]. exists update. split; [exact Hcalls|exact Hstatus].
Defined.

(** X10: when the update returns, [set_job_status_async] lists the jobs
    with that [id] and no other filter, from the store the update left, and
    returns the one projection of the listing; a listing that is empty, the
    job not being there, or that has several projections, raises
    [ValueError], and what the listing raises reaches the caller. *)
Theorem set_job_status_async_lists_one {St} (queries : string → string)
    (us : nat → string) (conn : connector St) (id : Z) (status : string)
    (σ : machine St) (s : St) :
  let update :=
    <["query" := PStr (queries "set_job_status")]>
      (<["id" := PInt id]> (<["status" := PStr status]> ∅)) in
  conn execute_query_async update (store σ) = (Returned (), s) →
  let result := run us conn (set_job_status_async queries id status) σ in
  let listing :=
    run us conn (list_jobs_async queries (Some id) None None None None None)
      (Machine (drawn σ) s (calls σ ++ [(execute_query_async, update)])) in
  result.2 = listing.2
  ∧ (∀ projection, listing.1 = Returned [projection] →
       result.1 = Returned (Unpacked projection))
  ∧ (∀ out, listing.1 = Returned out → length out ≠ 1 →
       result.1 = Returned ValueError)
  ∧ (∀ e, listing.1 = Raised e → result.1 = Raised e).
Proof.
  intros update Hconn result listing. subst result listing update.
  rewrite run_set_job_status_async. cbv zeta. rewrite Hconn.
  match goal with |- context [run us conn (list_jobs_async ?q ?i ?a ?b ?c ?d ?e) ?m] =>
    destruct (run us conn (list_jobs_async q i a b c d e) m)
      as [[[|projection [|]]|e'] σ']
  end; simpl; repeat split; intros; simplify_eq/=; first [done | lia].
Qed.

Lemma set_job_status_async_lists_one_witness :
  (run Sample.uuid_source (Sample.answering ∅ [])
     (set_job_status_async Sample.queries 7 "todo") (Sample.start ())).1
  = Returned ValueError
  ∧ ∃ projection,
      (run Sample.uuid_source (Sample.answering ∅ [Sample.claimed])
         (set_job_status_async Sample.queries 7 "todo") (Sample.start ())).1
      = Returned (Unpacked projection)
      ∧ projection !! "task" = Some (PStr "send_mail").
Proof.
  split.
  - destruct (set_job_status_async_lists_one Sample.queries Sample.uuid_source
                (Sample.answering ∅ []) 7 "todo" (Sample.start ()) () eq_refl)
      as (_ & _ & Hnone & _).
    apply (Hnone [] eq_refl). discriminate.
  - eexists. split.
    + destruct (set_job_status_async_lists_one Sample.queries Sample.uuid_source
                  (Sample.answering ∅ [Sample.claimed]) 7 "todo"
                  (Sample.start ()) () eq_refl)
        as (_ & Hone & _ & _).
      apply Hone. reflexivity.
    + reflexivity.
Defined.

(** ** Stalled jobs *)

Lemma run_from_row_or_raise {St} (from_row : gmap string pyval → reply Job.t)
    (us : nat → string) (conn : connector St) (row : gmap string pyval)
    (σ : machine St) :
  run us conn (from_row_or_raise from_row row) σ = (from_row row, σ).
Proof. unfold from_row_or_raise. by destruct (from_row row). Qed.

(** X11: [get_stalled_jobs] issues one query with the threshold and the two
    filters, and returns the jobs that [Job.from_row] builds from the rows of
    the answer, one per row and in their order, so none for no row; if
    [Job.from_row] raises on a row, the call raises what it raises on the
    first such row, and no job is returned. *)
Theorem get_stalled_jobs_outcome {St} (queries : string → string)
    (from_row : gmap string pyval → reply Job.t) (us : nat → string)
    (conn : connector St) (nb_seconds : Z) (queue task_name : option string)
    (σ : machine St) :
  let result :=
    run us conn (get_stalled_jobs queries from_row nb_seconds queue task_name) σ in
  ∃ kw,
    calls result.2 = calls σ ++ [(execute_query_all_async, kw)]
    ∧ kw !! "nb_seconds" = Some (PInt nb_seconds)
    ∧ kw !! "queue" = Some (of_opt_str queue)
    ∧ kw !! "task_name" = Some (of_opt_str task_name)
    ∧ ∀ rows s, conn execute_query_all_async kw (store σ) = (Returned rows, s) →
        (∀ out, result.1 = Returned out
                ↔ Forall2 (λ row job, from_row row = Returned job) rows out)
        ∧ (∀ good bad rest e,
             rows = good ++ bad :: rest →
             Forall (λ row, ∃ job, from_row row = Returned job) good →
             from_row bad = Raised e →
             result.1 = Raised e).
Proof.
  intros result. subst result. unfold get_stalled_jobs, await. simpl.
  match goal with |- context [conn _ ?k (store σ)] => set (kw := k) end.
  exists kw.
  assert (∀ row (σ' : machine St),
            (run us conn (from_row_or_raise from_row row) σ').2 = σ') as Hpure
    by (intros; by rewrite run_from_row_or_raise).
  destruct (conn execute_query_all_async kw (store σ)) as [[rows|e] s] eqn:Hconn;
    simpl; (split; [by rewrite ?(run_mapM_pure us conn _ Hpure)|]);
    do 3 (split; [reflexivity|]); intros rows' s' [= <- <-].
  split.
  - intros out. rewrite (run_mapM_returned us conn _ Hpure).
    split; intros H; (eapply Forall2_impl; [exact H|]); intros row job;
      cbv beta; by rewrite run_from_row_or_raise.
  - intros good bad rest e' -> Hgood Hbad.
    apply (run_mapM_raised us conn _ Hpure).
    + eapply Forall_impl; [exact Hgood|].
      intros row [job Hjob]. exists job. by rewrite run_from_row_or_raise.
    + by rewrite run_from_row_or_raise.
Qed.

Lemma get_stalled_jobs_outcome_witness :
  (run Sample.uuid_source (Sample.answering ∅ [Sample.claimed])
     (get_stalled_jobs Sample.queries Sample.from_row 3600 None None)
     (Sample.start ())).1
  = Returned [Job.make (Some 7%Z) "default" (Some "mailbox") None "send_mail" ∅
                None DOING 1]
  ∧ (run Sample.uuid_source
       (Sample.answering ∅ [Sample.claimed; Sample.todo_only; Sample.claimed])
       (get_stalled_jobs Sample.queries Sample.from_row 3600 None None)
       (Sample.start ())).1
    = Raised (KeyError "row").
Proof.
  split.
  - destruct (get_stalled_jobs_outcome Sample.queries Sample.from_row
                Sample.uuid_source (Sample.answering ∅ [Sample.claimed])
                3600 None None (Sample.start ()))
      as (kw & _ & _ & _ & _ & H).
    destruct (H _ _ eq_refl) as [Hout _].
    apply Hout. by repeat constructor.
  - destruct (get_stalled_jobs_outcome Sample.queries Sample.from_row
                Sample.uuid_source
                (Sample.answering ∅ [Sample.claimed; Sample.todo_only; Sample.claimed])
                3600 None None (Sample.start ()))
      as (kw & _ & _ & _ & _ & H).
    destruct (H _ _ eq_refl) as [_ Hraise].
    apply (Hraise [Sample.claimed] Sample.todo_only [Sample.claimed]);
      [reflexivity| |reflexivity].
    constructor; [|constructor]. by eexists.
Defined.

(** ** What the defer and claim operations relay *)

(** X12: when the store answers a defer, in either call form, with a row,
    the caller gets the value under [id] as it is, and [KeyError] if the row
    has no [id]. *)
Theorem defer_returns_row_id {St} (form : call_form) (Q : string)
    (queries : string → string) (us : nat → string) (conn : connector St)
    (job : Job.t) (σ σ1 : machine St) (kw row : gmap string pyval) (s : St) :
  run us conn (_defer_job_query_kwargs queries job) σ = (Returned kw, σ1) →
  conn (Method ExecuteOne form) kw (store σ1) = (Returned row, s) →
  let result := run us conn (defer_in form Q queries job) σ in
  (∀ v, row !! "id" = Some v → result.1 = Returned v)
  ∧ (row !! "id" = None → result.1 = Raised (KeyError "id"))
  ∧ store result.2 = s.
Proof.
  intros Hkw Hconn result. subst result.
  rewrite (run_defer_in Q queries us conn form job _ _ _ Hkw), Hconn. simpl.
  repeat split; [by intros v ->|by intros ->].
Qed.

Lemma defer_returns_row_id_witness :
  (run Sample.uuid_source (Sample.answering ∅ [])
     (defer_job Sample.QUEUEING_LOCK_CONSTRAINT Sample.queries
        (Sample.job (Some "mailbox") None))
     (Sample.start ())).1
  = Raised (KeyError "id")
  ∧ (run Sample.uuid_source (Sample.answering (<["id" := PStr "seven"]> ∅) [])
       (defer_job_async Sample.QUEUEING_LOCK_CONSTRAINT Sample.queries
          (Sample.job (Some "mailbox") None))
       (Sample.start ())).1
    = Returned (PStr "seven").
Proof.
  split.
  - destruct (defer_returns_row_id Blocking Sample.QUEUEING_LOCK_CONSTRAINT
                Sample.queries Sample.uuid_source (Sample.answering ∅ [])
                (Sample.job (Some "mailbox") None) (Sample.start ()) _ _ ∅ ()
                eq_refl eq_refl) as (_ & Hnone & _).
    exact (Hnone eq_refl).
  - destruct (defer_returns_row_id Suspending Sample.QUEUEING_LOCK_CONSTRAINT
                Sample.queries Sample.uuid_source
                (Sample.answering (<["id" := PStr "seven"]> ∅) [])
                (Sample.job (Some "mailbox") None) (Sample.start ()) _ _
                (<["id" := PStr "seven"]> ∅) () eq_refl eq_refl) as (Hid & _).
    exact (Hid _ eq_refl).
Defined.

(** X13: [fetch_job] catches nothing: what the connector raises reaches the
    caller, a row without [id] raises [KeyError], and for a row with a
    non-null [id] what [Job.from_row] raises reaches the caller; in each case
    the claim was the only call. *)
Theorem fetch_job_relays_errors {St} (queries : string → string)
    (from_row : gmap string pyval → reply Job.t) (us : nat → string)
    (conn : connector St) (queues : option (list string)) (σ : machine St) :
  let result := run us conn (fetch_job queries from_row queues) σ in
  ∃ kw,
    calls result.2 = calls σ ++ [(execute_query_one_async, kw)]
    ∧ kw !! "queues" = Some (of_opt_queues queues)
    ∧ ∀ r s, conn execute_query_one_async kw (store σ) = (r, s) →
        (∀ e, r = Raised e → result.1 = Raised e)
        ∧ (∀ row, r = Returned row → row !! "id" = None →
             result.1 = Raised (KeyError "id"))
        ∧ (∀ row v e, r = Returned row → row !! "id" = Some v → v ≠ PNone →
             from_row row = Raised e → result.1 = Raised e).
Proof.
  intros result. subst result. unfold fetch_job, await. simpl.
  match goal with |- context [conn _ ?k (store σ)] => set (kw := k) end.
  exists kw.
  destruct (conn execute_query_one_async kw (store σ)) as [[row|e] s] eqn:Hconn;
    simpl.
  - cbv [result_of operation_of execute_query_one_async] in *.
    unfold subscript. split.
    { destruct (row !! "id") as [v|]; simpl; [|done].
      destruct (is_None v); simpl; [done|]. by destruct (from_row row). }
    split; [reflexivity|]. intros r' s' [= <- <-]. repeat split.
    + by intros e [=].
    + intros row' [= <-] ->. done.
    + intros row' v e [= <-] -> Hv Hraise. simpl.
      destruct v; try done; simpl; by rewrite Hraise.
  - split; [done|]. split; [reflexivity|]. intros r' s' [= <- <-].
    repeat split; try done. by intros e' [= ->].
Qed.

Lemma fetch_job_relays_errors_witness :
  (run Sample.uuid_source (Sample.raising (ConnectorException "connection lost"))
     (fetch_job Sample.queries Sample.from_row None) (Sample.start ())).1
  = Raised (ConnectorException "connection lost")
  ∧ (run Sample.uuid_source (Sample.answering ∅ [])
       (fetch_job Sample.queries Sample.from_row None) (Sample.start ())).1
    = Raised (KeyError "id").
Proof.
  split.
  - destruct (fetch_job_relays_errors Sample.queries Sample.from_row
                Sample.uuid_source
                (Sample.raising (ConnectorException "connection lost")) None
                (Sample.start ())) as (kw & _ & _ & H).
    destruct (H _ _ eq_refl) as (Hraise & _). exact (Hraise _ eq_refl).
  - destruct (fetch_job_relays_errors Sample.queries Sample.from_row
                Sample.uuid_source (Sample.answering ∅ []) None
                (Sample.start ())) as (kw & _ & _ & H).
    destruct (H _ _ eq_refl) as (_ & Hkey & _). exact (Hkey ∅ eq_refl eq_refl).
Defined.

(** ** One call, no token *)

(** X14: reading, pruning, retrying and listening cost one call to the
    connector each, and no token: whatever the connector answers, be it an
    exception or rows that cannot be projected, the call is not repeated,
    no other call is made, and the store is left as that one call left
    it. *)
Theorem operations_are_single_queries (queries : string → string)
    (from_row : gmap string pyval → reply Job.t) :
  (∀ queues, single_query execute_query_one_async
               (fetch_job queries from_row queues))
  ∧ single_query execute_query_one_async (check_connection queries)
  ∧ (∀ nb_seconds queue task_name,
       single_query execute_query_all_async
         (get_stalled_jobs queries from_row nb_seconds queue task_name))
  ∧ (∀ id queue task status lock queueing_lock,
       single_query execute_query_all_async
         (list_jobs_async queries id queue task status lock queueing_lock))
  ∧ (∀ which queue task status lock,
       single_query execute_query_all_async
         (list_stats which queries queue task status lock))
  ∧ (∀ job retry_at, single_query execute_query_async
                       (retry_job queries job retry_at))
  ∧ (∀ nb_hours queue include_error,
       single_query execute_query_async
         (delete_old_jobs queries nb_hours queue include_error))
  ∧ (∀ event queues, single_query listen_notify (listen_for_jobs event queues)).
Proof.
  repeat split; intros; intros St us conn σ.
  - unfold fetch_job, await. simpl.
    match goal with |- context [conn _ ?k (store σ)] => exists k end.
    destruct (conn _ _ (store σ)) as [[row|e] s]; simpl; [|done].
    cbv [result_of operation_of execute_query_one_async] in *.
    unfold subscript. destruct (row !! "id") as [v|]; simpl; [|done].
    destruct (is_None v); simpl; [done|]. by destruct (from_row row).
  - unfold check_connection, await. simpl.
    match goal with |- context [conn _ ?k (store σ)] => exists k end.
    destruct (conn _ _ (store σ)) as [[row|e] s]; simpl; [|done].
    cbv [result_of operation_of execute_query_one_async] in *.
    unfold subscript. by destruct (row !! "check").
  - unfold get_stalled_jobs, await. simpl.
    match goal with |- context [conn _ ?k (store σ)] => exists k end.
    destruct (conn _ _ (store σ)) as [[rows|e] s]; simpl; [|done].
    rewrite (run_mapM_pure us conn (from_row_or_raise from_row)); [done|].
    intros row σ'. unfold from_row_or_raise. by destruct (from_row row).
  - unfold list_jobs_async, await. simpl.
    match goal with |- context [conn _ ?k (store σ)] => exists k end.
    destruct (conn _ _ (store σ)) as [[rows|e] s]; simpl; [|done].
    by rewrite run_mapM_job_projection_pure.
  - destruct which; unfold list_stats, list_queues_async, list_tasks_async, await;
      simpl;
      match goal with |- context [conn _ ?k (store σ)] => exists k end;
      (destruct (conn _ _ (store σ)) as [[rows|e] s]; simpl; [|done]);
      by rewrite (run_mapM_pure us conn stats_projection
                    (run_stats_projection_pure us conn)).
  - unfold retry_job, await. simpl.
    match goal with |- context [conn _ ?k (store σ)] => exists k end.
    by destruct (conn _ _ (store σ)) as [[r|e] s].
  - unfold delete_old_jobs, await. simpl.
    match goal with |- context [conn _ ?k (store σ)] => exists k end.
    by destruct (conn _ _ (store σ)) as [[r|e] s].
  - unfold listen_for_jobs, await. simpl.
    match goal with |- context [conn _ ?k (store σ)] => exists k end.
    by destruct (conn _ _ (store σ)) as [[r|e] s].
Qed.

(** ** The keys of a statistics projection *)

Lemma run_stats_projection_keys {St} (us : nat → string) (conn : connector St)
    (row projection : gmap string pyval) (σ : machine St) :
  (run us conn (stats_projection row) σ).1 = Returned projection →
  dom projection
  = list_to_set ["name"; "jobs_count"; "todo"; "doing"; "succeeded"; "failed"]
  ∧ projection !! "name" = row !! "name"
  ∧ projection !! "jobs_count" = row !! "jobs_count".
Proof.
  unfold stats_projection, subscript.
  destruct (row !! "name"); [|done].
  destruct (row !! "jobs_count"); [|done].
  destruct (row !! "stats") as [[| | | | | | | |stats]|]; try done.
  simpl. intros [= <-]. split; [|by split].
  rewrite !dom_insert_L, dom_empty_L. simpl. set_solver.
Qed.

(** X15: a projection of [list_queues_async] or [list_tasks_async] has the
    six keys [name], [jobs_count], [todo], [doing], [succeeded] and [failed]
    and no other, with [name] and [jobs_count] as the row has them: a bucket
    of [stats] under any other name is left out, and so is any other column
    of the row. *)
Theorem list_stats_keys {St} (which : stats_operation)
    (queries : string → string) (us : nat → string) (conn : connector St)
    (queue task status lock : option string) (σ : machine St)
    (out : list (gmap string pyval)) :
  (run us conn (list_stats which queries queue task status lock) σ).1
  = Returned out →
  ∃ kw rows s,
    conn execute_query_all_async kw (store σ) = (Returned rows, s)
    ∧ Forall2 (λ row projection : gmap string pyval,
                 dom projection
                 = list_to_set
                     ["name"; "jobs_count"; "todo"; "doing"; "succeeded"; "failed"]
                 ∧ projection !! "name" = row !! "name"
                 ∧ projection !! "jobs_count" = row !! "jobs_count")
              rows out.
Proof.
  destruct which; unfold list_stats, list_queues_async, list_tasks_async, await;
    simpl;
    match goal with |- context [conn _ ?k (store σ)] => set (kw := k) end;
    (destruct (conn execute_query_all_async kw (store σ)) as [[rows|e] s] eqn:Hconn;
     simpl; [|done]);
    intros Hout; exists kw, rows, s; (split; [done|]);
    (apply run_mapM_returned in Hout; [|apply run_stats_projection_pure]);
    (eapply Forall2_impl; [exact Hout|]);
    intros row projection Hrow;
    apply (run_stats_projection_keys us conn row projection _ Hrow).
Qed.

Lemma list_stats_keys_witness :
  let row :=
    <["queue_id" := PInt 4]>
      (<["stats" := PDict (<["todo" := PInt 3]> (<["cancelled" := PInt 2]> ∅))]>
         Sample.todo_only) in
  (run Sample.uuid_source (Sample.answering ∅ [row])
     (list_tasks_async Sample.queries None None None None) (Sample.start ())).1
  = Returned [Sample.todo_only_projection]
  ∧ dom Sample.todo_only_projection
    = list_to_set ["name"; "jobs_count"; "todo"; "doing"; "succeeded"; "failed"].
Proof.
  intros row.
  assert ((run Sample.uuid_source (Sample.answering ∅ [row])
             (list_tasks_async Sample.queries None None None None)
             (Sample.start ())).1
          = Returned [Sample.todo_only_projection]) as Hrun by reflexivity.
  split; [exact Hrun|].
  destruct (list_stats_keys Tasks Sample.queries Sample.uuid_source
              (Sample.answering ∅ [row]) None None None None (Sample.start ())
              [Sample.todo_only_projection] Hrun)
    as (kw & rows & s & _ & Hrows).
  apply Forall2_cons_inv_r in Hrows as (row' & rows' & (Hdom & _) & _ & _).
  exact Hdom.
Defined.
